(** * Verification of the 1inch gateway client and proxy

    A shallow embedding of
      - [OneInchTradingApp] (the rate-limited, caching client) with its
        swap workflow,
      - [OneInchAPI] of the live test script,
      - the Express handlers of [backend-server.js],
      - the client of the swap component, which talks to those handlers,
    the properties the specification states about them, and further
    properties of the code: pacing of awaited and of concurrent calls, the
    caches, the requests and results of each operation, the workflow, the
    proxy and the component behind it. *)

From Stdlib Require Import ZArith Lia.
From stdpp Require Import base option list strings pretty gmap.

Set Warnings "-register-all".

Local Open Scope string_scope.
Local Open Scope list_scope.
Local Open Scope Z_scope.

(** ** JavaScript values *)

Module JS.

(** The values the modelled code handles.  [JNum n] stands for the number
    [n] where [n] is a safe integer (its absolute value is below 2^53): for
    these [toString] is the exact decimal form; larger numbers print their
    shortest round-trip digits and are not modelled.  [JBig] stands for an
    ethers [BigNumber], an object whose [toString] is its decimal form. *)
Inductive Value :=
  | JUndefined
  | JNull
  | JBool (b : bool)
  | JNum (n : Z)
  | JStr (s : string)
  | JBig (n : Z)
  | JArr (items : list Value)
  | JObj (props : gmap string Value).

(** What [if (v)], [v || d] and [!v] look at. *)
Definition truthy (v : Value) : bool :=
  match v with
  | JUndefined | JNull => false
  | JBool b => b
  | JNum n => negb (Z.eqb n 0)
  | JStr s => negb (String.eqb s "")
  | JBig _ | JArr _ | JObj _ => true
  end.

(** [a || b] *)
Definition or_else (a b : Value) : Value := if truthy a then a else b.

Definition join (sep : string) (parts : list string) : string :=
  String.concat sep parts.

(** [String(v)], the conversion [URLSearchParams.append] and template
    literals apply. *)
Fixpoint String_ (v : Value) : string :=
  match v with
  | JUndefined => "undefined"
  | JNull => "null"
  | JBool true => "true"
  | JBool false => "false"
  | JNum n => pretty n
  | JStr s => s
  | JBig n => pretty n
  | JArr items =>
      join "," (map (fun x => match x with
                              | JUndefined | JNull => ""
                              | _ => String_ x
                              end) items)
  | JObj _ => "[object Object]"
  end.

(** Exceptions.  [Error] carries the message the source builds; the others
    are raised by the runtime ([TypeError]) or by [node-fetch]
    ([FetchError]: the transport failed, or the body is not JSON). *)
Inductive Exn :=
  | Error (message : string)
  | TypeError
  | FetchError.

(** [v.toString()] *)
Definition toString (v : Value) : Exn + string :=
  match v with
  | JUndefined | JNull => inl TypeError
  | _ => inr (String_ v)
  end.

(** [v.name]; of the built-in properties only [length] is modelled. *)
Definition prop (v : Value) (name : string) : Exn + Value :=
  match v with
  | JUndefined | JNull => inl TypeError
  | JObj props => inr (default JUndefined (props !! name))
  | JArr items =>
      inr (if String.eqb name "length" then JNum (Z.of_nat (length items)) else JUndefined)
  | JStr s =>
      inr (if String.eqb name "length" then JNum (Z.of_nat (String.length s)) else JUndefined)
  | _ => inr JUndefined
  end.

(** [Object.keys(v)]: only whether it throws matters here. *)
Definition Object_keys (v : Value) : Exn + unit :=
  match v with
  | JUndefined | JNull => inl TypeError
  | _ => inr tt
  end.

(** The properties [{...o}] copies: those of an object, the indices of an
    array, the characters of a string; nothing for the other values. *)
Definition spread (o : Value) : gmap string Value :=
  match o with
  | JObj props => props
  | JArr items => list_to_map (imap (fun i x => (pretty i, x)) items)
  | JStr s =>
      list_to_map (imap (fun i c => (pretty i, JStr (String c EmptyString)))
                        (String.list_ascii_of_string s))
  | _ => ∅
  end.

End JS.

Import JS.

(** ** The outside world: clock, transport, request log *)

(** A URL under construction: [new URL(endpoint)] and the pairs appended to
    its [searchParams], in order. *)
Record Url := MkUrl { endpoint : string; searchParams : list (string * string) }.

Definition URL (endpoint : string) : Url := MkUrl endpoint [].

(** [url.searchParams.append(name, value)] *)
Definition append (name : string) (value : Value) (url : Url) : Url :=
  MkUrl (endpoint url) (searchParams url ++ [(name, String_ value)]).

(** [url.searchParams.getAll(name)] *)
Definition getAll (name : string) (url : Url) : list string :=
  map snd (filter (fun kv => kv.1 = name) (searchParams url)).

(** What one [fetch] comes back with. *)
Inductive Outcome :=
  | Unreachable
  | Responded (status : Z) (text : string) (json : option Value).

Record Reply := MkReply { latency : Z; outcome : Outcome }.

(** [response.ok] *)
Definition ok (status : Z) : bool := (200 <=? status) && (status <=? 299).

(** The fields of a [OneInchTradingApp] instance that change, together with
    the clock behind [Date.now()] and the log of dispatched requests
    (dispatch time and URL, oldest first). *)
Record State := MkState {
  clock : Z;
  sent : list (Z * Url);
  lastRequest : Z;
  tokensCache : Value;
  tokensCacheTime : Z;
  protocolsCache : Value;
  protocolsCacheTime : Z
}.

(** [new OneInchTradingApp(...)] at time [t]. *)
Definition constructor (t : Z) : State :=
  MkState t [] 0 JNull 0 JNull 0.

Definition requestInterval : Z := 1000.
Definition cacheExpiry : Z := 300000.
Definition baseUrl : string := "https://api.1inch.dev/swap/v6.0/1".
Definition protocolsUrl : string := "https://api.1inch.dev/swap/v5.0/1".

(** Time passing between two operations. *)
Definition elapse (d : Z) (st : State) : State :=
  MkState (clock st + d) (sent st) (lastRequest st)
          (tokensCache st) (tokensCacheTime st)
          (protocolsCache st) (protocolsCacheTime st).

(** ** Asynchronous code as state passing with exceptions *)

Definition M (A : Type) : Type := State -> (Exn + A) * State.

Definition ret {A} (a : A) : M A := fun st => (inr a, st).
Definition throw {A} (e : Exn) : M A := fun st => (inl e, st).
Definition bind {A B} (m : M A) (k : A -> M B) : M B :=
  fun st => match m st with
            | (inr a, st') => k a st'
            | (inl e, st') => (inl e, st')
            end.
Definition try_catch {A} (m : M A) (handler : Exn -> M A) : M A :=
  fun st => match m st with
            | (inr a, st') => (inr a, st')
            | (inl e, st') => handler e st'
            end.
Definition lift {A} (r : Exn + A) : M A := fun st => (r, st).

Notation "'let*' x ':=' m 'in' k" := (bind m (fun x => k))
  (at level 10, x name, m at level 100, k at level 200).
Notation "m ';;' k" := (bind m (fun _ => k))
  (at level 100, k at level 200, right associativity).

Definition Date_now : M Z := fun st => (inr (clock st), st).

(** [await new Promise(resolve => setTimeout(resolve, ms))]; the timer is
    taken to fire on time. *)
Definition setTimeout (ms : Z) : M unit :=
  fun st => (inr tt, elapse ms st).

Definition set_lastRequest (t : Z) : M unit :=
  fun st => (inr tt, MkState (clock st) (sent st) t
                        (tokensCache st) (tokensCacheTime st)
                        (protocolsCache st) (protocolsCacheTime st)).

Definition set_tokensCache (v : Value) (t : Z) : M unit :=
  fun st => (inr tt, MkState (clock st) (sent st) (lastRequest st)
                        v t (protocolsCache st) (protocolsCacheTime st)).

Definition set_protocolsCache (v : Value) (t : Z) : M unit :=
  fun st => (inr tt, MkState (clock st) (sent st) (lastRequest st)
                        (tokensCache st) (tokensCacheTime st) v t).

(** ** [OneInchTradingApp] *)

Section TradingApp.

(** The upstream service: the reply to the [n]-th request of the run. *)
Variable upstream : nat -> Url -> Reply.

(** [Number(a) / Number(b)], a floating-point quotient, left uninterpreted. *)
Variable quotient : Value -> Value -> Value.

(** [await fetch(url, ...)]: the request leaves now and the caller resumes
    when the reply is there. *)
Definition fetch (url : Url) : M (Z * string * option Value) :=
  fun st =>
    let reply := upstream (length (sent st)) url in
    let st' := MkState (clock st + latency reply) (sent st ++ [(clock st, url)])
                       (lastRequest st)
                       (tokensCache st) (tokensCacheTime st)
                       (protocolsCache st) (protocolsCacheTime st) in
    match outcome reply with
    | Unreachable => (inl FetchError, st')
    | Responded status text json => (inr (status, text, json), st')
    end.

(** [await response.json()] *)
Definition response_json (json : option Value) : M Value :=
  match json with
  | Some v => ret v
  | None => throw FetchError
  end.

Definition http_message (status : Z) (errorText : string) : string :=
  "HTTP " +:+ pretty status +:+ ": " +:+ errorText.

(** [rateLimitedRequest(url, options)] (lines 48-71). *)
Definition rateLimitedRequest (url : Url) : M Value :=
  let* now := Date_now in
  let* last := (fun st => (inr (lastRequest st), st)) in
  let timeSinceLastRequest := now - last in
  (if timeSinceLastRequest <? requestInterval
   then setTimeout (requestInterval - timeSinceLastRequest)
   else ret tt) ;;
  let* now' := Date_now in
  set_lastRequest now' ;;
  let* response := fetch url in
  let '(status, errorText, json) := response in
  if negb (ok status)
  then throw (Error (http_message status errorText))
  else response_json json.

(** [getSupportedTokens()] (lines 74-90); [Object.keys(result.tokens)] is
    evaluated for the log line, after the cache is written. *)
Definition getSupportedTokens : M Value :=
  let* now := Date_now in
  let* cache := (fun st => (inr (tokensCache st, tokensCacheTime st), st)) in
  if truthy cache.1 && (now - cache.2 <? cacheExpiry)
  then ret cache.1
  else
    let* result := rateLimitedRequest (URL (baseUrl +:+ "/tokens")) in
    let* tokens := lift (prop result "tokens") in
    set_tokensCache tokens now ;;
    lift (Object_keys tokens) ;;
    ret tokens.

Definition mockProtocols : Value :=
  JArr [ JObj {[ "id" := JStr "UNISWAP_V2"; "title" := JStr "Uniswap V2" ]};
         JObj {[ "id" := JStr "UNISWAP_V3"; "title" := JStr "Uniswap V3" ]};
         JObj {[ "id" := JStr "SUSHISWAP"; "title" := JStr "SushiSwap" ]};
         JObj {[ "id" := JStr "CURVE"; "title" := JStr "Curve" ]};
         JObj {[ "id" := JStr "BALANCER"; "title" := JStr "Balancer" ]} ].

Definition endpoints : list Url :=
  [ URL (protocolsUrl +:+ "/protocols");
    URL "https://api.1inch.dev/swap/v4.0/1/protocols";
    URL "https://api.1inch.dev/swap/v3.0/1/protocols" ].

(** The body of the [try] block of [getSupportedProtocols]. *)
Definition tryEndpoint (now : Z) (url : Url) : M Value :=
  let* result := rateLimitedRequest url in
  let* protocols := lift (prop result "protocols") in
  let cached := or_else protocols result in
  set_protocolsCache cached now ;;
  lift (prop cached "length") ;;
  ret cached.

(** The [for (const url of endpoints)] loop: [catch] logs and goes on; after
    the last endpoint the mock list is cached and returned. *)
Fixpoint tryEndpoints (now : Z) (urls : list Url) : M Value :=
  match urls with
  | [] => set_protocolsCache mockProtocols now ;; ret mockProtocols
  | url :: rest =>
      try_catch (tryEndpoint now url) (fun _ => tryEndpoints now rest)
  end.

(** [getSupportedProtocols()] (lines 93-139). *)
Definition getSupportedProtocols : M Value :=
  let* now := Date_now in
  let* cache := (fun st => (inr (protocolsCache st, protocolsCacheTime st), st)) in
  if truthy cache.1 && (now - cache.2 <? cacheExpiry)
  then ret cache.1
  else tryEndpoints now endpoints.

(** [options.name] for an options object. *)
Definition opt (options : gmap string Value) (name : string) : Value :=
  default JUndefined (options !! name).

(** [if (v) url.searchParams.append(name, w)] *)
Definition appendIf (v : Value) (name : string) (w : Value) (url : Url) : Url :=
  if truthy v then append name w url else url.

(** [getQuote(srcToken, dstToken, amount, options = {})] (lines 142-162);
    the tokens are strings, as the [slice] calls of the log line need. *)
Definition getQuote (srcToken dstToken : string) (amount : Value)
    (options : gmap string Value) : M Value :=
  let url := URL (baseUrl +:+ "/quote") in
  let url := append "src" (JStr srcToken) url in
  let url := append "dst" (JStr dstToken) url in
  let* amountText := lift (toString amount) in
  let url := append "amount" (JStr amountText) url in
  let url := appendIf (opt options "slippage") "slippage" (opt options "slippage") url in
  let url := appendIf (opt options "protocols") "protocols" (opt options "protocols") url in
  let url := appendIf (opt options "fee") "fee" (opt options "fee") url in
  let* result := rateLimitedRequest url in
  let* dstAmount := lift (prop result "dstAmount") in
  ret (JObj (<[ "rate" := quotient dstAmount amount ]>
            (<[ "inputAmount" := amount ]>
            (<[ "outputAmount" := dstAmount ]> (spread result))))).

(** [buildSwap(srcToken, dstToken, amount, fromAddress, options = {})]
    (lines 165-189). *)
Definition buildSwap (srcToken dstToken : string) (amount fromAddress : Value)
    (options : gmap string Value) : M Value :=
  if negb (truthy fromAddress)
  then throw (Error "From address is required for swap building")
  else
    let url := URL (baseUrl +:+ "/swap") in
    let url := append "src" (JStr srcToken) url in
    let url := append "dst" (JStr dstToken) url in
    let* amountText := lift (toString amount) in
    let url := append "amount" (JStr amountText) url in
    let url := append "from" fromAddress url in
    let url := append "slippage" (or_else (opt options "slippage") (JNum 1)) url in
    let url := appendIf (opt options "receiver") "receiver" (opt options "receiver") url in
    let url := appendIf (opt options "allowPartialFill") "allowPartialFill" (JStr "true") url in
    let url := appendIf (opt options "referrer") "referrer" (opt options "referrer") url in
    let* result := rateLimitedRequest url in
    let* dstAmount := lift (prop result "dstAmount") in
    ret (JObj (<[ "outputAmount" := dstAmount ]> (spread result))).

(** [checkAllowance(tokenAddress, walletAddress)] (lines 192-199). *)
Definition checkAllowance (tokenAddress walletAddress : string) : M Value :=
  let url := URL (baseUrl +:+ "/approve/allowance") in
  let url := append "tokenAddress" (JStr tokenAddress) url in
  let url := append "walletAddress" (JStr walletAddress) url in
  let* result := rateLimitedRequest url in
  lift (prop result "allowance").

(** [amount = null] in the parameter list: the default replaces a missing
    (undefined) argument only. *)
Definition default_null (amount : Value) : Value :=
  match amount with
  | JUndefined => JNull
  | _ => amount
  end.

(** [buildApproval(tokenAddress, amount = null)] (lines 209-219);
    [JUndefined] is the argument left out. *)
Definition buildApproval (tokenAddress : string) (amount : Value) : M Value :=
  let amount := default_null amount in
  let url := URL (baseUrl +:+ "/approve/transaction") in
  let url := append "tokenAddress" (JStr tokenAddress) url in
  let* url :=
    if truthy amount
    then let* amountText := lift (toString amount) in
         ret (append "amount" (JStr amountText) url)
    else ret url in
  let* result := rateLimitedRequest url in
  ret result.

(** *** What one paced request amounts to *)

(** When the request of a call entered in [st] leaves. *)
Definition dispatchTime (st : State) : Z :=
  if clock st - lastRequest st <? requestInterval
  then lastRequest st + requestInterval
  else clock st.

(** What the caller gets from an upstream outcome. *)
Definition settled (o : Outcome) : Exn + Value :=
  match o with
  | Unreachable => inl FetchError
  | Responded status errorText json =>
      if ok status
      then match json with Some v => inr v | None => inl FetchError end
      else inl (Error (http_message status errorText))
  end.

(** The state a paced request leaves behind. *)
Definition afterRequest (url : Url) (st : State) : State :=
  let t := dispatchTime st in
  MkState (t + latency (upstream (length (sent st)) url))
          (sent st ++ [(t, url)]) t
          (tokensCache st) (tokensCacheTime st)
          (protocolsCache st) (protocolsCacheTime st).

(** *** [OneInchAPI] of the live test script: the same requests without
    pacing or caching *)

(** [makeRequest(url)] (test-1inch-live.js, lines 30-44): [catch] logs and
    throws the error again. *)
Definition OneInchAPI_makeRequest (url : Url) : M Value :=
  try_catch
    (let* response := fetch url in
     let '(status, errorText, json) := response in
     if negb (ok status)
     then throw (Error (http_message status errorText))
     else response_json json)
    (fun error => throw error).

Definition OneInchAPI_getQuote (src dst : string) (amount : Value)
    (options : gmap string Value) : M Value :=
  let url := URL (baseUrl +:+ "/quote") in
  let url := append "src" (JStr src) url in
  let url := append "dst" (JStr dst) url in
  let url := append "amount" amount url in
  let url := appendIf (opt options "slippage") "slippage" (opt options "slippage") url in
  OneInchAPI_makeRequest url.

Definition OneInchAPI_buildSwap (src dst : string) (amount : Value) (from : string)
    (options : gmap string Value) : M Value :=
  let url := URL (baseUrl +:+ "/swap") in
  let url := append "src" (JStr src) url in
  let url := append "dst" (JStr dst) url in
  let url := append "amount" amount url in
  let url := append "from" (JStr from) url in
  let url := append "slippage" (or_else (opt options "slippage") (JNum 1)) url in
  OneInchAPI_makeRequest url.

Definition OneInchAPI_getSupportedTokens : M Value :=
  OneInchAPI_makeRequest (URL (baseUrl +:+ "/tokens")).

Definition possiblePaths : list Url :=
  [ URL (baseUrl +:+ "/protocols");
    URL (baseUrl +:+ "/liquidity-sources");
    URL "https://api.1inch.dev/swap/v5.0/1/protocols" ].

(** The loop of [OneInchAPI.getSupportedProtocols] (test-1inch-live.js,
    lines 51-69): the first path that answers wins; after the last one the
    error is thrown. *)
Fixpoint OneInchAPI_tryPaths (paths : list Url) : M Value :=
  match paths with
  | [] => throw (Error "All protocol endpoints failed")
  | path :: rest =>
      try_catch (OneInchAPI_makeRequest path) (fun _ => OneInchAPI_tryPaths rest)
  end.

Definition OneInchAPI_getSupportedProtocols : M Value :=
  OneInchAPI_tryPaths possiblePaths.

Definition OneInchAPI_getSpender : M Value :=
  OneInchAPI_makeRequest (URL (baseUrl +:+ "/approve/spender")).

Definition OneInchAPI_checkAllowance (tokenAddress walletAddress : string) : M Value :=
  let url := URL (baseUrl +:+ "/approve/allowance") in
  let url := append "tokenAddress" (JStr tokenAddress) url in
  let url := append "walletAddress" (JStr walletAddress) url in
  OneInchAPI_makeRequest url.

(** *** The rest of [OneInchTradingApp] *)

(** [getSpender()] (lines 202-206). *)
Definition getSpender : M Value :=
  let* result := rateLimitedRequest (URL (baseUrl +:+ "/approve/spender")) in
  lift (prop result "address").

(** [BigInt(v)], the runtime's conversion, left uninterpreted. *)
Variable BigInt : Value -> Exn + Z.

(** [this.tokens.ETH] *)
Definition ETH : string := "0xEeeeeEeeeEeEeeEeEeEeeEEEeeeeEeeeeeeeEEeE".

(** [v.substring(0, 42)]: only a string has the method. *)
Definition substring_0_42 (v : Value) : Exn + unit :=
  match v with
  | JStr _ => inr tt
  | _ => inl TypeError
  end.

(** Step 2 of [executeSwapWorkflow] (lines 238-263): [Some] is the value the
    workflow returns early with; the property reads are those of the log
    lines. *)
Definition checkApproval (walletAddress srcToken : string) (amount quote : Value)
    : M (option Value) :=
  if negb (String.eqb srcToken ETH)
  then
    let* allowance := checkAllowance srcToken walletAddress in
    let* allowed := lift (BigInt allowance) in
    let* wanted := lift (BigInt amount) in
    if allowed <? wanted
    then
      let* approvalTx := buildApproval srcToken JUndefined in
      lift (prop approvalTx "to") ;;
      let* data := lift (prop approvalTx "data") in
      lift (substring_0_42 data) ;;
      lift (prop approvalTx "gas") ;;
      ret (Some (JObj {[ "type" := JStr "approval_required";
                         "approvalTransaction" := approvalTx;
                         "quote" := quote ]}))
    else ret None
  else ret None.

(** [executeSwapWorkflow(srcToken, dstToken, amount, options = {})]
    (lines 222-286); [wallet] is the address of [this.wallet], if there is
    one.  The [catch] logs and throws the error again. *)
Definition executeSwapWorkflow (wallet : option string) (srcToken dstToken : string)
    (amount : Value) (options : gmap string Value) : M Value :=
  match wallet with
  | None => throw (Error "Wallet is required for executing transactions")
  | Some walletAddress =>
      try_catch
        (let* quote := getQuote srcToken dstToken amount options in
         let* early := checkApproval walletAddress srcToken amount quote in
         match early with
         | Some answer => ret answer
         | None =>
             let* swapData :=
               buildSwap srcToken dstToken amount (JStr walletAddress) options in
             let* tx := lift (prop swapData "tx") in
             lift (prop tx "to") ;;
             lift (prop tx "value") ;;
             lift (prop tx "gas") ;;
             let* outputAmount := lift (prop swapData "outputAmount") in
             ret (JObj {[ "type" := JStr "swap_ready";
                          "transaction" := tx;
                          "expectedOutput" := outputAmount;
                          "quote" := quote ]})
         end)
        (fun error => throw error)
  end.

(** *** Calls made one after the other *)

(** One call of an operation of [OneInchTradingApp]. *)
Inductive Call :=
  | CallTokens
  | CallProtocols
  | CallQuote (srcToken dstToken : string) (amount : Value) (options : gmap string Value)
  | CallSwap (srcToken dstToken : string) (amount fromAddress : Value)
      (options : gmap string Value)
  | CallAllowance (tokenAddress walletAddress : string)
  | CallSpender
  | CallApproval (tokenAddress : string) (amount : Value)
  | CallWorkflow (wallet : option string) (srcToken dstToken : string) (amount : Value)
      (options : gmap string Value).

Definition perform (c : Call) : M Value :=
  match c with
  | CallTokens => getSupportedTokens
  | CallProtocols => getSupportedProtocols
  | CallQuote srcToken dstToken amount options =>
      getQuote srcToken dstToken amount options
  | CallSwap srcToken dstToken amount fromAddress options =>
      buildSwap srcToken dstToken amount fromAddress options
  | CallAllowance tokenAddress walletAddress => checkAllowance tokenAddress walletAddress
  | CallSpender => getSpender
  | CallApproval tokenAddress amount => buildApproval tokenAddress amount
  | CallWorkflow wallet srcToken dstToken amount options =>
      executeSwapWorkflow wallet srcToken dstToken amount options
  end.

(** A caller that awaits each call before it makes the next one, [d]
    milliseconds later, whether the call succeeded or threw. *)
Fixpoint session (calls : list (Z * Call)) (st : State) : State :=
  match calls with
  | [] => st
  | (d, c) :: rest => session rest (perform c (elapse d st)).2
  end.

End TradingApp.

(** ** The proxy server *)

Module Proxy.

Section Handlers.

(** [error.message] of the exceptions the runtime raises itself. *)
Variable runtime_message : Exn -> string.

Definition message (error : Exn) : string :=
  match error with
  | Error m => m
  | _ => runtime_message error
  end.

Definition BASE_URL : string := "https://api.1inch.dev/swap/v6.0/1".

(** What the handler answers: status, JSON body, and the headers the [cors]
    middleware adds for its configured [origin] and [credentials]. *)
Record Answer := MkAnswer {
  answer_status : Z;
  answer_body : Value;
  answer_headers : list (string * string)
}.

Definition cors : list (string * string) :=
  [ ("Access-Control-Allow-Origin", "http://localhost:3000");
    ("Access-Control-Allow-Credentials", "true") ].

(** [res.json(data)] *)
Definition res_json (data : Value) : Answer := MkAnswer 200 data cors.

(** [res.status(500).json({ error, details })] *)
Definition res_failed (error : string) (details : string) : Answer :=
  MkAnswer 500 (JObj {[ "error" := JStr error; "details" := JStr details ]}) cors.

(** [Object.entries(req.query).forEach(([key, value]) => { if (value) ... })];
    [query] lists the entries of [req.query] in that order. *)
Definition forward (query : list (string * Value)) (url : Url) : Url :=
  foldl (fun u kv => appendIf kv.2 kv.1 kv.2 u) url query.

(** [fetch], the [ok] test and [response.json()] inside the [try] block. *)
Definition relay (upstream : Outcome) : Exn + Value :=
  match upstream with
  | Unreachable => inl FetchError
  | Responded status errorText json =>
      if negb (ok status)
      then inl (Error (http_message status errorText))
      else match json with
           | Some data => inr data
           | None => inl FetchError
           end
  end.

(** [app.get('/api/quote', ...)]: the URL requested upstream and the answer,
    given the upstream's outcome. *)
Definition api_quote (query : list (string * Value)) (upstream : Outcome)
    : Url * Answer :=
  let url := forward query (URL (BASE_URL +:+ "/quote")) in
  (url, match relay upstream with
        | inr data =>
            (* [console.log(..., data.dstAmount)] comes before [res.json] *)
            match prop data "dstAmount" with
            | inr _ => res_json data
            | inl error => res_failed "Failed to get quote" (message error)
            end
        | inl error => res_failed "Failed to get quote" (message error)
        end).

(** [app.get('/api/tokens', ...)] *)
Definition api_tokens (query : list (string * Value)) (upstream : Outcome)
    : Url * Answer :=
  let url := URL (BASE_URL +:+ "/tokens") in
  (url, match relay upstream with
        | inr data =>
            match prop data "tokens" with
            | inr tokens =>
                match Object_keys tokens with
                | inr _ => res_json data
                | inl error => res_failed "Failed to fetch tokens" (message error)
                end
            | inl error => res_failed "Failed to fetch tokens" (message error)
            end
        | inl error => res_failed "Failed to fetch tokens" (message error)
        end).

(** [app.get('/api/swap', ...)] *)
Definition api_swap (query : list (string * Value)) (upstream : Outcome)
    : Url * Answer :=
  let url := forward query (URL (BASE_URL +:+ "/swap")) in
  (url, match relay upstream with
        | inr data => res_json data
        | inl error => res_failed "Failed to build swap" (message error)
        end).

(** [app.get('/api/approve/allowance', ...)]; the log line reads
    [data.allowance]. *)
Definition api_approve_allowance (query : list (string * Value)) (upstream : Outcome)
    : Url * Answer :=
  let url := forward query (URL (BASE_URL +:+ "/approve/allowance")) in
  (url, match relay upstream with
        | inr data =>
            match prop data "allowance" with
            | inr _ => res_json data
            | inl error => res_failed "Failed to check allowance" (message error)
            end
        | inl error => res_failed "Failed to check allowance" (message error)
        end).

(** [app.get('/api/approve/transaction', ...)] *)
Definition api_approve_transaction (query : list (string * Value)) (upstream : Outcome)
    : Url * Answer :=
  let url := forward query (URL (BASE_URL +:+ "/approve/transaction")) in
  (url, match relay upstream with
        | inr data => res_json data
        | inl error => res_failed "Failed to build approval" (message error)
        end).

(** The five proxying routes. *)
Inductive Route := Tokens | Quote | Swap | Allowance | Transaction.

Definition handle (route : Route) : list (string * Value) -> Outcome -> Url * Answer :=
  match route with
  | Tokens => api_tokens
  | Quote => api_quote
  | Swap => api_swap
  | Allowance => api_approve_allowance
  | Transaction => api_approve_transaction
  end.

(** The label of the route's [catch] block. *)
Definition label (route : Route) : string :=
  match route with
  | Tokens => "Failed to fetch tokens"
  | Quote => "Failed to get quote"
  | Swap => "Failed to build swap"
  | Allowance => "Failed to check allowance"
  | Transaction => "Failed to build approval"
  end.

End Handlers.

End Proxy.

(** ** The swap component's client, which talks to the proxy *)

Module Component.

(** [this.baseUrl] of the component's [OneInchAPI]. *)
Definition baseUrl : string := "http://localhost:3001/api".

(** The requests of [getQuote] and [buildSwap]; [slippage] is a number, of
    which the integers are modelled. *)
Definition quoteUrl (src dst amount : string) (slippage : Z) : Url :=
  let url := URL (baseUrl +:+ "/quote") in
  let url := append "src" (JStr src) url in
  let url := append "dst" (JStr dst) url in
  let url := append "amount" (JStr amount) url in
  append "slippage" (JStr (pretty slippage)) url.

Definition swapUrl (src dst amount from : string) (slippage : Z) : Url :=
  let url := URL (baseUrl +:+ "/swap") in
  let url := append "src" (JStr src) url in
  let url := append "dst" (JStr dst) url in
  let url := append "amount" (JStr amount) url in
  let url := append "from" (JStr from) url in
  append "slippage" (JStr (pretty slippage)) url.

(** The test on [response.ok] and [response.json()], for the answer of the
    proxy; [failure] is the text before the status. *)
Definition settle (failure : string) (answer : Proxy.Answer) : Exn + Value :=
  if negb (ok (Proxy.answer_status answer))
  then inl (Error (failure +:+ pretty (Proxy.answer_status answer)))
  else inr (Proxy.answer_body answer).

(** What Express finds in [req.query] for a URL whose parameter names are
    all different. *)
Definition req_query (url : Url) : list (string * Value) :=
  map (fun kv => (kv.1, JStr kv.2)) (searchParams url).

(** [getQuote(src, dst, amount, slippage)] served by the proxy's
    [/api/quote]: the request the upstream sees and what the caller gets. *)
Definition getQuote (runtime_message : Exn -> string) (upstream : Outcome)
    (src dst amount : string) (slippage : Z) : Url * (Exn + Value) :=
  let served := Proxy.api_quote runtime_message
                  (req_query (quoteUrl src dst amount slippage)) upstream in
  (served.1, settle "Failed to get quote: " served.2).

(** [buildSwap(src, dst, amount, from, slippage)] served by [/api/swap]. *)
Definition buildSwap (runtime_message : Exn -> string) (upstream : Outcome)
    (src dst amount from : string) (slippage : Z) : Url * (Exn + Value) :=
  let served := Proxy.api_swap runtime_message
                  (req_query (swapUrl src dst amount from slippage)) upstream in
  (served.1, settle "Failed to build swap: " served.2).

End Component.

(** ** Concurrent callers of [rateLimitedRequest]

    Several calls share one instance.  Each call runs up to its first
    [await] when it is made; a call that went to sleep resumes when its
    timer fires.  Only the pacing part is kept: [lastRequest], the armed
    timers and the dispatch log. *)

Module EventLoop.

Record Loop := MkLoop {
  lastRequest : Z;
  timers : list (Z * nat);      (* wake-up time, caller *)
  dispatched : list (Z * nat)   (* dispatch time, caller; oldest first *)
}.

(** [this.lastRequest = Date.now(); fetch(...)] at time [now]. *)
Definition resume (now : Z) (caller : nat) (l : Loop) : Loop :=
  MkLoop now (timers l) (dispatched l ++ [(now, caller)]).

(** Timers fire in order of their time, and in arming order when equal. *)
Fixpoint arm (t : Z * nat) (ts : list (Z * nat)) : list (Z * nat) :=
  match ts with
  | [] => [t]
  | u :: us => if t.1 <? u.1 then t :: ts else u :: arm t us
  end.

(** The call made at [now]: the test on [timeSinceLastRequest], then either
    the timer or the dispatch. *)
Definition enter (now : Z) (caller : nat) (l : Loop) : Loop :=
  let timeSinceLastRequest := now - lastRequest l in
  if timeSinceLastRequest <? requestInterval
  then MkLoop (lastRequest l)
              (arm (now + (requestInterval - timeSinceLastRequest), caller) (timers l))
              (dispatched l)
  else resume now caller l.

Fixpoint fire (due : list (Z * nat)) (l : Loop) : Loop :=
  match due with
  | [] => l
  | (wake, caller) :: rest => fire rest (resume wake caller l)
  end.

(** Let the timers due at [now] fire. *)
Definition advance (now : Z) (l : Loop) : Loop :=
  fire (filter (fun t => t.1 ≤ now) (timers l))
       (MkLoop (lastRequest l) (filter (fun t => ¬ t.1 ≤ now) (timers l)) (dispatched l)).

(** Calls made at the given times (in order), numbered from [caller]; then
    the loop runs until no timer is left.  A timer due in the millisecond of
    a call is taken to fire before the call is made; the runtime may also
    run the call first. *)
Fixpoint run (calls : list Z) (caller : nat) (l : Loop) : Loop :=
  match calls with
  | [] => fire (timers l) (MkLoop (lastRequest l) [] (dispatched l))
  | now :: rest => run rest (S caller) (enter now caller (advance now l))
  end.

(** A fresh instance. *)
Definition fresh : Loop := MkLoop 0 [] [].

(** Dispatch times of [n] calls all made at time [T] on a fresh instance. *)
Definition burst (T : Z) (n : nat) : list Z :=
  map fst (dispatched (run (replicate n T) 0%nat fresh)).

End EventLoop.

(** ** Auxiliary definitions for the statements *)

(** The test that guards a cached list. *)
Definition isFresh (cache : Value) (cacheTime : Z) (st : State) : bool :=
  truthy cache && (clock st - cacheTime <? cacheExpiry).

Definition tokensUrl : Url := URL (baseUrl +:+ "/tokens").

(** Every reply of an upstream that always answers the same. *)
Definition always (latency : Z) (o : Outcome) : nat -> Url -> Reply :=
  fun _ _ => MkReply latency o.

(** An upstream whose first answer is [first] and whose later ones are [next]. *)
Definition first_then (first next : Outcome) : nat -> Url -> Reply :=
  fun n _ => match n with
             | O => MkReply 100 first
             | S _ => MkReply 100 next
             end.

Definition quoteBody : Value := JObj {[ "dstAmount" := JStr "3868650000" ]}.

(** A stand-in for the floating-point quotient in closed examples. *)
Definition noQuotient (a b : Value) : Value := JNum 0.

(** A stand-in for the runtime's own error texts in closed examples. *)
Definition noMessage (e : Exn) : string := "".

(** Timers that all fire at [W]. *)
Definition waiting (W : Z) (ts : list (Z * nat)) : Prop :=
  Forall (fun t => t.1 = W) ts.

(** Any two of the times [ts], in order, are [requestInterval] apart. *)
Definition spaced (ts : list Z) : Prop :=
  forall i j a b, (i < j)%nat -> ts !! i = Some a -> ts !! j = Some b ->
    a + requestInterval <= b.

(** The dispatch times of the requests sent so far. *)
Definition dispatchTimes (st : State) : list Z := map fst (sent st).

(** What the paced requests of one instance keep true. *)
Definition paced (st : State) : Prop :=
  spaced (dispatchTimes st)
  /\ Forall (fun t => t <= lastRequest st) (dispatchTimes st).

(** The two caches of an instance. *)
Definition caches (st : State) : Value * Z * Value * Z :=
  (tokensCache st, tokensCacheTime st, protocolsCache st, protocolsCacheTime st).

(** The amounts whose text the model has exactly: strings, BigNumbers and
    safe integers. *)
Definition exactText (amount : Value) : Prop :=
  match amount with
  | JStr _ | JBig _ => True
  | JNum n => - 2 ^ 53 < n < 2 ^ 53
  | _ => False
  end.

(** The endpoints of the requests [requests], in the order they left. *)
Definition visited (requests : list (Z * Url)) : list string :=
  map (fun r => endpoint r.2) requests.

Definition quoteEndpoint : string := baseUrl +:+ "/quote".
Definition swapEndpoint : string := baseUrl +:+ "/swap".
Definition allowanceEndpoint : string := baseUrl +:+ "/approve/allowance".
Definition transactionEndpoint : string := baseUrl +:+ "/approve/transaction".

(** An upstream that answers the requests of a run with the bodies given,
    in order, and then with status 500. *)
Definition scripted (bodies : list Value) : nat -> Url -> Reply :=
  fun n _ => match bodies !! n with
             | Some body => MkReply 100 (Responded 200 "" (Some body))
             | None => MkReply 100 (Responded 500 "" None)
             end.

(** The state an unpaced request leaves behind. *)
Definition afterFetch (upstream : nat -> Url -> Reply) (url : Url) (st : State) : State :=
  MkState (clock st + latency (upstream (length (sent st)) url))
          (sent st ++ [(clock st, url)]) (lastRequest st)
          (tokensCache st) (tokensCacheTime st)
          (protocolsCache st) (protocolsCacheTime st).

(** What the proxy forwards of one text parameter. *)
Definition kept (name value : string) : list (string * string) :=
  if String.eqb value "" then [] else [(name, value)].

(** [m] keeps [P] true of the state, whether it returns or throws. *)
Definition preserves {A} (P : State -> Prop) (m : M A) : Prop :=
  forall st, P st -> P (m st).2.

(** Call times that do not go back. *)
Fixpoint ascending (from : Z) (calls : list Z) : Prop :=
  match calls with
  | [] => True
  | t :: rest => from <= t /\ ascending t rest
  end.

(** Call times that are [requestInterval] apart, the first one that long
    after [from]. *)
Fixpoint apart (from : Z) (calls : list Z) : Prop :=
  match calls with
  | [] => True
  | t :: rest => from + requestInterval <= t /\ apart t rest
  end.

(** * Properties *)

Example truthy_zero_string : truthy (JStr "0") = true.
Proof. reflexivity. Qed.

Example String_51 : String_ (JNum 51) = "51".
Proof. reflexivity. Qed.


(** ** One paced request *)

Section Pacing.

Variable upstream : nat -> Url -> Reply.

Lemma rateLimitedRequest_spec url st :
  rateLimitedRequest upstream url st
  = (settled (outcome (upstream (length (sent st)) url)), afterRequest upstream url st).
Proof.
  unfold rateLimitedRequest, afterRequest, dispatchTime, settled,
    bind, Date_now, setTimeout, set_lastRequest, fetch, ret, elapse.
  destruct (clock st - lastRequest st <? requestInterval); simpl;
    destruct (outcome _) as [|status errorText json]; simpl;
    try destruct (ok status); simpl; try destruct json; simpl;
    unfold throw, ret;
    try replace (clock st + (requestInterval - (clock st - lastRequest st)))
      with (lastRequest st + requestInterval) by lia;
    reflexivity.
Qed.

(** Exactly one request leaves, at [dispatchTime]. *)
Lemma afterRequest_sent url st :
  sent (afterRequest upstream url st) = sent st ++ [(dispatchTime st, url)].
Proof. reflexivity. Qed.

(** Calls that follow one another are paced: the request leaves no earlier
    than [requestInterval] after the previous one, and [lastRequest] is the
    time it left. *)
Lemma rateLimitedRequest_paced url st :
  lastRequest st + requestInterval <= dispatchTime st
  /\ clock st <= dispatchTime st
  /\ lastRequest (afterRequest upstream url st) = dispatchTime st.
Proof.
  unfold afterRequest, dispatchTime; simpl.
  destruct (Z.ltb_spec (clock st - lastRequest st) requestInterval); lia.
Qed.

End Pacing.

(** ** Query parameters *)

Lemma getAll_URL name e : getAll name (URL e) = [].
Proof. reflexivity. Qed.

Lemma getAll_append name k v url :
  getAll name (append k v url)
  = getAll name url ++ (if decide (k = name) then [String_ v] else []).
Proof.
  unfold getAll, append; simpl.
  rewrite filter_app, map_app. f_equal.
  rewrite filter_cons; simpl. case_decide; reflexivity.
Qed.

Lemma getAll_appendIf name c k v url :
  getAll name (appendIf c k v url)
  = getAll name url
    ++ (if truthy c then if decide (k = name) then [String_ v] else [] else []).
Proof.
  unfold appendIf. destruct (truthy c).
  - apply getAll_append.
  - symmetry; apply app_nil_r.
Qed.

Lemma endpoint_append k v url : endpoint (append k v url) = endpoint url.
Proof. reflexivity. Qed.

Lemma endpoint_appendIf c k v url : endpoint (appendIf c k v url) = endpoint url.
Proof. unfold appendIf; destruct (truthy c); reflexivity. Qed.

Lemma searchParams_appendIf c k v url :
  exists more, searchParams (appendIf c k v url) = searchParams url ++ more.
Proof.
  unfold appendIf. destruct (truthy c); simpl.
  - eexists; reflexivity.
  - exists []. symmetry; apply app_nil_r.
Qed.

(** ** Operations of the client *)

(** The request [getQuote] builds, and what it does with it. *)
Lemma getQuote_request upstream quotient src dst amount text options st :
  toString amount = inr text ->
  exists url more,
    endpoint url = baseUrl +:+ "/quote"
    /\ searchParams url = [("src", src); ("dst", dst); ("amount", text)] ++ more
    /\ getAll "slippage" url
       = (if truthy (opt options "slippage")
          then [String_ (opt options "slippage")] else [])
    /\ (getQuote upstream quotient src dst amount options st).2 = afterRequest upstream url st
    /\ (getQuote upstream quotient src dst amount options st).1
       = match settled (outcome (upstream (length (sent st)) url)) with
         | inr result =>
             match prop result "dstAmount" with
             | inr dstAmount =>
                 inr (JObj (<[ "rate" := quotient dstAmount amount ]>
                           (<[ "inputAmount" := amount ]>
                           (<[ "outputAmount" := dstAmount ]> (spread result)))))
             | inl e => inl e
             end
         | inl e => inl e
         end.
Proof.
  intros Htext. unfold getQuote, bind, lift. rewrite Htext.
  set (u3 := append "amount" (JStr text) _).
  set (u4 := appendIf _ "slippage" _ u3).
  set (u5 := appendIf _ "protocols" _ u4).
  set (u6 := appendIf _ "fee" _ u5).
  destruct (searchParams_appendIf (opt options "slippage") "slippage"
              (opt options "slippage") u3) as [m4 H4].
  destruct (searchParams_appendIf (opt options "protocols") "protocols"
              (opt options "protocols") u4) as [m5 H5].
  destruct (searchParams_appendIf (opt options "fee") "fee"
              (opt options "fee") u5) as [m6 H6].
  exists u6, (m4 ++ m5 ++ m6). repeat split.
  - subst u6 u5 u4 u3. rewrite !endpoint_appendIf. reflexivity.
  - fold u4 in H4. fold u5 in H5. fold u6 in H6.
    rewrite H6, H5, H4. subst u3. simpl. rewrite <- !app_assoc. reflexivity.
  - subst u6 u5 u4 u3. rewrite !getAll_appendIf, !getAll_append, getAll_URL.
    simpl. destruct (truthy (opt options "slippage"));
      destruct (truthy (opt options "protocols"));
      destruct (truthy (opt options "fee")); reflexivity.
  - rewrite rateLimitedRequest_spec.
    destruct (settled _) as [e|result]; [reflexivity|].
    destruct (prop result "dstAmount"); reflexivity.
  - rewrite rateLimitedRequest_spec.
    destruct (settled _) as [e|result]; [reflexivity|].
    destruct (prop result "dstAmount"); reflexivity.
Qed.

(** *** Failures of the upstream *)

(** C3 fails as stated: when the upstream answers 429 and would answer 200
    to a second attempt, [getQuote] gives no quote, because no second
    attempt is made. *)
Lemma retry_after_429_counterexample :
  ~ (forall (upstream : nat -> Url -> Reply) st,
       (forall url, outcome (upstream (length (sent st)) url)
                    = Responded 429 "Too Many Requests" None) ->
       (forall url, outcome (upstream (S (length (sent st))) url)
                    = Responded 200 "" (Some quoteBody)) ->
       exists quote st',
         getQuote upstream noQuotient "A" "B" (JStr "1") ∅ st = (inr quote, st')).
Proof.
  intros claim.
  destruct (claim (first_then (Responded 429 "Too Many Requests" None)
                              (Responded 200 "" (Some quoteBody)))
                  (constructor 5000))
    as (quote & st' & Hrun); try (intros; reflexivity).
  vm_compute in Hrun. discriminate Hrun.
Qed.

(** C3 (amended): whatever status outside 200..299 the upstream answers
    (429, 5xx or any other 4xx), the paced request fails at once with the
    error [HTTP <status>: <body>] after exactly one attempt, and so does
    [getQuote]; nothing is retried. *)
Theorem failure_is_not_retried upstream quotient st status errorText json :
  (forall url, outcome (upstream (length (sent st)) url)
               = Responded status errorText json) ->
  ok status = false ->
  (forall url,
     rateLimitedRequest upstream url st
     = (inl (Error (http_message status errorText)), afterRequest upstream url st)
     /\ length (sent (afterRequest upstream url st)) = S (length (sent st)))
  /\ (forall src dst amount text options,
        toString amount = inr text ->
        exists st',
          getQuote upstream quotient src dst amount options st
          = (inl (Error (http_message status errorText)), st')
          /\ length (sent st') = S (length (sent st))).
Proof.
  intros Hreply Hok. split.
  - intros url. rewrite rateLimitedRequest_spec, Hreply. simpl. rewrite Hok.
    split; [reflexivity|]. rewrite length_app. simpl. lia.
  - intros src dst amount text options Htext.
    destruct (getQuote_request upstream quotient src dst amount text options st Htext)
      as (url & more & _ & _ & _ & Hst & Hres).
    rewrite Hreply in Hres. simpl in Hres. rewrite Hok in Hres.
    destruct (getQuote upstream quotient src dst amount options st) as [r st'].
    simpl in *. subst. eexists; split; [reflexivity|].
    rewrite afterRequest_sent, length_app. simpl. lia.
Qed.

Lemma failure_is_not_retried_witness :
  let st := constructor 5000 in
  let upstream := always 100 (Responded 429 "Too Many Requests" None) in
  exists st',
    getQuote upstream noQuotient "A" "B" (JStr "1") ∅ st
    = (inl (Error "HTTP 429: Too Many Requests"), st')
    /\ length (sent st') = 1%nat.
Proof.
  intros st upstream.
  refine (proj2 (failure_is_not_retried upstream noQuotient st 429
                   "Too Many Requests" None _ _) "A" "B" (JStr "1") "1" ∅ _);
    reflexivity.
Defined.

(** *** Validation of the arguments of [getQuote] *)

(** C4 fails as stated: with amount ["0"], source equal to destination and
    slippage 51, [getQuote] sends its request and returns the upstream's
    quote. *)
Lemma local_validation_counterexample :
  ~ (forall (upstream : nat -> Url -> Reply) src dst amount options st,
       amount = JStr "0" \/ src = dst
       \/ (exists n, opt options "slippage" = JNum n /\ (n <= 0 \/ 50 < n)) ->
       exists e st',
         getQuote upstream noQuotient src dst amount options st = (inl e, st')
         /\ sent st' = sent st).
Proof.
  intros claim.
  destruct (claim (always 100 (Responded 200 "" (Some quoteBody)))
                  "A" "A" (JStr "0") {[ "slippage" := JNum 51 ]} (constructor 5000))
    as (e & st' & Hrun & _); [left; reflexivity|].
  vm_compute in Hrun. discriminate Hrun.
Qed.

Lemma toString_exactText amount :
  exactText amount -> toString amount = inr (String_ amount).
Proof. destruct amount; simpl; intros H; try contradiction; reflexivity. Qed.

Lemma prop_throws v name e :
  prop v name = inl e -> e = TypeError /\ (v = JNull \/ v = JUndefined).
Proof.
  destruct v; simpl; intros H; try discriminate;
    try (destruct (String.eqb name "length"); discriminate);
    injection H as <-; auto.
Qed.

(** C4 (amended): [getQuote] validates nothing locally.  For every source
    and destination given as strings, all options and every amount that is
    a string, a BigNumber or a safe integer (so also ["0"], equal tokens,
    any slippage) it dispatches exactly one request to the quote endpoint,
    with [src], [dst] and the text of the amount as given.  What the caller
    gets is decided by what comes back only: the error of the exchange when
    it fails (no reply, a status outside 200..299, a body that is not
    JSON), a [TypeError] when reading [dstAmount] of the body throws (the
    body [null]), and otherwise the body with [outputAmount], [inputAmount]
    and [rate] added. *)
Theorem getQuote_sends_unvalidated upstream quotient src dst amount options st :
  exactText amount ->
  exists url more,
    sent (getQuote upstream quotient src dst amount options st).2
    = sent st ++ [(dispatchTime st, url)]
    /\ endpoint url = baseUrl +:+ "/quote"
    /\ searchParams url
       = [("src", src); ("dst", dst); ("amount", String_ amount)] ++ more
    /\ (getQuote upstream quotient src dst amount options st).1
       = match settled (outcome (upstream (length (sent st)) url)) with
         | inl e => inl e
         | inr result =>
             match prop result "dstAmount" with
             | inl e => inl e
             | inr dstAmount =>
                 inr (JObj (<[ "rate" := quotient dstAmount amount ]>
                           (<[ "inputAmount" := amount ]>
                           (<[ "outputAmount" := dstAmount ]> (spread result)))))
             end
         end
    /\ (forall e,
          (getQuote upstream quotient src dst amount options st).1 = inl e ->
          settled (outcome (upstream (length (sent st)) url)) = inl e
          \/ (e = TypeError
              /\ (settled (outcome (upstream (length (sent st)) url)) = inr JNull
                  \/ settled (outcome (upstream (length (sent st)) url))
                     = inr JUndefined))).
Proof.
  intros Hexact.
  destruct (getQuote_request upstream quotient src dst amount (String_ amount)
              options st (toString_exactText amount Hexact))
    as (url & more & Hend & Hparams & _ & Hst & Hres).
  exists url, more. rewrite Hst, Hres.
  split; [apply afterRequest_sent|]. split; [exact Hend|].
  split; [exact Hparams|]. split; [reflexivity|].
  intros e. destruct (settled _) as [e'|result]; [intros [= ->]; left; reflexivity|].
  destruct (prop result "dstAmount") as [e'|dstAmount] eqn:Hprop; [|discriminate].
  intros [= ->]. right.
  destruct (prop_throws _ _ _ Hprop) as [-> [->| ->]]; auto.
Qed.

Lemma getQuote_sends_unvalidated_witness :
  let upstream := always 100 (Responded 200 "" (Some quoteBody)) in
  exists url more,
    sent (getQuote upstream noQuotient "A" "A" (JStr "0") ∅ (constructor 5000)).2
    = sent (constructor 5000) ++ [(dispatchTime (constructor 5000), url)]
    /\ endpoint url = baseUrl +:+ "/quote"
    /\ searchParams url = [("src", "A"); ("dst", "A"); ("amount", "0")] ++ more
    /\ (getQuote upstream noQuotient "A" "A" (JStr "0") ∅ (constructor 5000)).1
       = inr (JObj (<[ "rate" := JNum 0 ]>
                   (<[ "inputAmount" := JStr "0" ]>
                   (<[ "outputAmount" := JStr "3868650000" ]>
                      (spread quoteBody))))).
Proof.
  intros upstream.
  destruct (getQuote_sends_unvalidated upstream noQuotient "A" "A" (JStr "0") ∅
              (constructor 5000) I)
    as (url & more & Hsent & Hend & Hparams & Hres & _).
  exists url, more. split; [exact Hsent|]. split; [exact Hend|].
  split; [exact Hparams|]. rewrite Hres. reflexivity.
Defined.

(** *** The amount of a quote *)

(** C8: when the upstream answers a quote request with a JSON object whose
    [dstAmount] is the string [d], the quote returned by [getQuote] carries
    that very string, as [outputAmount] and as [dstAmount]; nothing is
    converted. *)
Theorem getQuote_destination_amount_verbatim
    upstream quotient src dst amount text options st status errorText result d :
  toString amount = inr text ->
  (forall url, outcome (upstream (length (sent st)) url)
               = Responded status errorText (Some result)) ->
  ok status = true ->
  prop result "dstAmount" = inr (JStr d) ->
  exists quote st',
    getQuote upstream quotient src dst amount options st = (inr (JObj quote), st')
    /\ quote !! "outputAmount" = Some (JStr d)
    /\ quote !! "dstAmount" = Some (JStr d).
Proof.
  intros Htext Hreply Hok Hdst.
  destruct (getQuote_request upstream quotient src dst amount text options st Htext)
    as (url & more & _ & _ & _ & _ & Hres).
  rewrite Hreply in Hres. simpl in Hres. rewrite Hok, Hdst in Hres.
  destruct (getQuote upstream quotient src dst amount options st) as [r st'].
  simpl in Hres. subst r. eexists _, st'. split; [reflexivity|].
  split.
  - rewrite lookup_insert_ne by done. rewrite lookup_insert_ne by done.
    apply lookup_insert_eq.
  - rewrite !lookup_insert_ne by done.
    destruct result; simpl in Hdst; try discriminate;
      try (destruct (String.eqb _ _); discriminate).
    simpl. destruct (props !! "dstAmount") as [v|] eqn:Hprops; simpl in Hdst.
    + congruence.
    + discriminate.
Qed.

Lemma getQuote_destination_amount_verbatim_witness :
  exists quote st',
    getQuote (always 100 (Responded 200 "" (Some quoteBody))) noQuotient
      "A" "B" (JStr "1000000000000000000") ∅ (constructor 5000)
    = (inr (JObj quote), st')
    /\ quote !! "outputAmount" = Some (JStr "3868650000")
    /\ quote !! "dstAmount" = Some (JStr "3868650000").
Proof.
  apply (getQuote_destination_amount_verbatim _ noQuotient "A" "B"
           (JStr "1000000000000000000") "1000000000000000000" ∅
           (constructor 5000) 200 "" quoteBody "3868650000");
    reflexivity.
Defined.

(** *** The amount of an approval *)

Lemma truthy_default_null amount : truthy (default_null amount) = truthy amount.
Proof. destruct amount; reflexivity. Qed.

Lemma toString_truthy amount :
  truthy amount = true -> toString amount = inr (String_ amount).
Proof. destruct amount; simpl; intros H; try discriminate; reflexivity. Qed.

(** The request [buildApproval] builds, and what it does with it. *)
Lemma buildApproval_request upstream tokenAddress amount st :
  exists url,
    endpoint url = baseUrl +:+ "/approve/transaction"
    /\ searchParams url
       = ("tokenAddress", tokenAddress)
         :: (if truthy amount then [("amount", String_ amount)] else [])
    /\ buildApproval upstream tokenAddress amount st
       = (settled (outcome (upstream (length (sent st)) url)),
          afterRequest upstream url st).
Proof.
  unfold buildApproval. rewrite truthy_default_null.
  destruct (truthy amount) eqn:Htruthy.
  - assert (Hd : default_null amount = amount)
      by (destruct amount; try reflexivity; discriminate).
    rewrite Hd. unfold bind, lift, ret. rewrite (toString_truthy _ Htruthy).
    exists (append "amount" (JStr (String_ amount))
              (append "tokenAddress" (JStr tokenAddress)
                 (URL (baseUrl +:+ "/approve/transaction")))).
    repeat split. rewrite rateLimitedRequest_spec.
    destruct (settled _); reflexivity.
  - unfold bind, ret.
    exists (append "tokenAddress" (JStr tokenAddress)
              (URL (baseUrl +:+ "/approve/transaction"))).
    repeat split. rewrite rateLimitedRequest_spec.
    destruct (settled _); reflexivity.
Qed.

(** C7 fails as stated: the number 0 is an amount the caller supplied, and
    the request carries no [amount] parameter. *)
Lemma supplied_amount_counterexample :
  ~ (forall (upstream : nat -> Url -> Reply) tokenAddress amount st,
       amount <> JUndefined ->
       exists t url,
         sent (buildApproval upstream tokenAddress amount st).2 = sent st ++ [(t, url)]
         /\ getAll "amount" url = [String_ amount]).
Proof.
  intros claim.
  destruct (claim (always 100 (Responded 200 "" (Some JNull))) "T" (JNum 0)
                  (constructor 5000))
    as (t & url & Hsent & Hamount); [discriminate|].
  vm_compute in Hsent. injection Hsent as _ Hurl. subst url.
  vm_compute in Hamount. discriminate Hamount.
Qed.

(** C7 (amended): when no amount is given, the request to the approval
    endpoint carries [tokenAddress] only, no [amount] parameter at all; when
    a truthy amount is given (a non-empty string, a non-zero number, a
    BigNumber), its string form is sent as [amount], which for a string is
    the string itself. *)
Theorem buildApproval_amount_parameter upstream tokenAddress amount st :
  truthy amount = true ->
  (exists url,
     sent (buildApproval upstream tokenAddress JUndefined st).2
     = sent st ++ [(dispatchTime st, url)]
     /\ endpoint url = baseUrl +:+ "/approve/transaction"
     /\ searchParams url = [("tokenAddress", tokenAddress)])
  /\ (exists url,
        sent (buildApproval upstream tokenAddress amount st).2
        = sent st ++ [(dispatchTime st, url)]
        /\ endpoint url = baseUrl +:+ "/approve/transaction"
        /\ searchParams url = [("tokenAddress", tokenAddress); ("amount", String_ amount)])
  /\ (forall s, amount = JStr s -> String_ amount = s).
Proof.
  intros Htruthy. split; [|split].
  - destruct (buildApproval_request upstream tokenAddress JUndefined st)
      as (url & Hend & Hparams & Hrun).
    exists url. rewrite Hrun. auto.
  - destruct (buildApproval_request upstream tokenAddress amount st)
      as (url & Hend & Hparams & Hrun).
    rewrite Htruthy in Hparams. exists url. rewrite Hrun. auto.
  - intros s ->. reflexivity.
Qed.

Lemma buildApproval_amount_parameter_witness :
  let upstream := always 100 (Responded 200 "" (Some JNull)) in
  let st := constructor 5000 in
  exists url,
    sent (buildApproval upstream "T" (JStr "1000") st).2
    = sent st ++ [(dispatchTime st, url)]
    /\ endpoint url = baseUrl +:+ "/approve/transaction"
    /\ searchParams url = [("tokenAddress", "T"); ("amount", "1000")].
Proof.
  intros upstream st.
  exact (proj1 (proj2 (buildApproval_amount_parameter upstream "T" (JStr "1000") st
                         eq_refl))).
Defined.

(** C9: an amount that is given but falsy (the number 0, the empty string,
    [null]) is dropped: the call then behaves exactly as the call without
    amount, whose request has no [amount] parameter.  For every amount, the
    parameter is sent if and only if the amount is truthy; the string ["0"]
    is truthy and is sent. *)
Theorem buildApproval_falsy_amount_dropped upstream tokenAddress st :
  buildApproval upstream tokenAddress (JNum 0) st
  = buildApproval upstream tokenAddress JUndefined st
  /\ buildApproval upstream tokenAddress (JStr "") st
     = buildApproval upstream tokenAddress JUndefined st
  /\ buildApproval upstream tokenAddress JNull st
     = buildApproval upstream tokenAddress JUndefined st
  /\ (forall amount, exists url,
        sent (buildApproval upstream tokenAddress amount st).2
        = sent st ++ [(dispatchTime st, url)]
        /\ getAll "amount" url = if truthy amount then [String_ amount] else [])
  /\ (exists url,
        sent (buildApproval upstream tokenAddress (JStr "0") st).2
        = sent st ++ [(dispatchTime st, url)]
        /\ getAll "amount" url = ["0"]).
Proof.
  assert (Hall : forall amount, exists url,
            sent (buildApproval upstream tokenAddress amount st).2
            = sent st ++ [(dispatchTime st, url)]
            /\ getAll "amount" url = if truthy amount then [String_ amount] else []).
  { intros amount.
    destruct (buildApproval_request upstream tokenAddress amount st)
      as (url & _ & Hparams & Hrun).
    exists url. rewrite Hrun. split; [reflexivity|].
    unfold getAll. rewrite Hparams. destruct (truthy amount); reflexivity. }
  repeat split; try reflexivity; [exact Hall|].
  exact (Hall (JStr "0")).
Qed.

(** *** Slippage *)

(** The request [buildSwap] builds once it has a sender address. *)
Lemma buildSwap_request upstream srcToken dstToken amount text fromAddress options st :
  truthy fromAddress = true ->
  toString amount = inr text ->
  exists url,
    endpoint url = baseUrl +:+ "/swap"
    /\ getAll "slippage" url = [String_ (or_else (opt options "slippage") (JNum 1))]
    /\ (buildSwap upstream srcToken dstToken amount fromAddress options st).2
       = afterRequest upstream url st.
Proof.
  intros Hfrom Htext. unfold buildSwap, bind, lift. rewrite Hfrom, Htext. simpl.
  eexists. split; [|split]; cycle 2.
  - rewrite rateLimitedRequest_spec.
    destruct (settled _) as [e|result]; [reflexivity|].
    destruct (prop result "dstAmount"); reflexivity.
  - rewrite !endpoint_appendIf. reflexivity.
  - rewrite !getAll_appendIf, !getAll_append, getAll_URL. simpl.
    destruct (truthy (opt options "receiver"));
      destruct (truthy (opt options "allowPartialFill"));
      destruct (truthy (opt options "referrer")); reflexivity.
Qed.

(** The request the test script's [makeRequest] sends: at once, unpaced. *)
Lemma OneInchAPI_makeRequest_sent upstream url st :
  sent (OneInchAPI_makeRequest upstream url st).2 = sent st ++ [(clock st, url)].
Proof.
  unfold OneInchAPI_makeRequest, try_catch, bind, fetch, throw.
  destruct (outcome _) as [|status errorText json]; simpl; [reflexivity|].
  destruct (ok status); simpl; [|reflexivity].
  destruct json; reflexivity.
Qed.

(** C10: with the slippage option equal to the number 0, no request carries
    [slippage=0]: the request of [getQuote] has no [slippage] parameter, and
    the requests of [buildSwap], in the trading application and in the test
    script's client, carry [slippage=1]. *)
Theorem zero_slippage_is_never_sent
    upstream quotient src dst amount text fromAddress from options st :
  opt options "slippage" = JNum 0 ->
  toString amount = inr text ->
  truthy fromAddress = true ->
  (exists url,
     sent (getQuote upstream quotient src dst amount options st).2
     = sent st ++ [(dispatchTime st, url)]
     /\ getAll "slippage" url = [])
  /\ (exists url,
        sent (buildSwap upstream src dst amount fromAddress options st).2
        = sent st ++ [(dispatchTime st, url)]
        /\ getAll "slippage" url = ["1"])
  /\ (exists url,
        sent (OneInchAPI_buildSwap upstream src dst amount from options st).2
        = sent st ++ [(clock st, url)]
        /\ getAll "slippage" url = ["1"]).
Proof.
  intros Hzero Htext Hfrom. split; [|split].
  - destruct (getQuote_request upstream quotient src dst amount text options st Htext)
      as (url & more & _ & _ & Hslip & Hst & _).
    exists url. rewrite Hst, Hslip, Hzero. split; reflexivity.
  - destruct (buildSwap_request upstream src dst amount text fromAddress options st
                Hfrom Htext) as (url & _ & Hslip & Hst).
    exists url. rewrite Hst, Hslip, Hzero. split; reflexivity.
  - unfold OneInchAPI_buildSwap. eexists. split.
    + apply OneInchAPI_makeRequest_sent.
    + rewrite !getAll_append, getAll_URL, Hzero. reflexivity.
Qed.

Lemma zero_slippage_is_never_sent_witness :
  let upstream := always 100 (Responded 200 "" (Some quoteBody)) in
  let st := constructor 5000 in
  let options : gmap string Value := {[ "slippage" := JNum 0 ]} in
  exists url,
    sent (buildSwap upstream "A" "B" (JStr "1000") (JStr "0xF") options st).2
    = sent st ++ [(dispatchTime st, url)]
    /\ getAll "slippage" url = ["1"].
Proof.
  intros upstream st options.
  exact (proj1 (proj2 (zero_slippage_is_never_sent upstream noQuotient "A" "B"
                         (JStr "1000") "1000" (JStr "0xF") "0xF" options st
                         eq_refl eq_refl eq_refl))).
Defined.

(** ** The caches *)

Section Caches.

Variable upstream : nat -> Url -> Reply.

Lemma getSupportedTokens_hit st :
  isFresh (tokensCache st) (tokensCacheTime st) st = true ->
  getSupportedTokens upstream st = (inr (tokensCache st), st).
Proof.
  unfold isFresh, getSupportedTokens, bind, Date_now; simpl.
  intros ->. reflexivity.
Qed.

Lemma getSupportedTokens_miss st :
  isFresh (tokensCache st) (tokensCacheTime st) st = false ->
  getSupportedTokens upstream st
  = match settled (outcome (upstream (length (sent st)) tokensUrl)) with
    | inl e => (inl e, afterRequest upstream tokensUrl st)
    | inr result =>
        match prop result "tokens" with
        | inl e => (inl e, afterRequest upstream tokensUrl st)
        | inr tokens =>
            (match Object_keys tokens with inl e => inl e | inr _ => inr tokens end,
             (set_tokensCache tokens (clock st) (afterRequest upstream tokensUrl st)).2)
        end
    end.
Proof.
  unfold isFresh, getSupportedTokens, bind, Date_now; simpl.
  intros ->. fold tokensUrl. rewrite rateLimitedRequest_spec.
  destruct (settled _) as [e|result]; [reflexivity|].
  unfold lift. destruct (prop result "tokens") as [e|tokens]; [reflexivity|].
  simpl. destruct (Object_keys tokens); reflexivity.
Qed.

(** A successful call that went to the network has stamped the cache with
    the time at which the call started. *)
Lemma getSupportedTokens_fetched st tokens st' :
  getSupportedTokens upstream st = (inr tokens, st') ->
  length (sent st') = S (length (sent st)) ->
  tokensCache st' = tokens /\ tokensCacheTime st' = clock st
  /\ sent st' = sent st ++ [(dispatchTime st, tokensUrl)].
Proof.
  intros Hrun Hsent.
  destruct (isFresh (tokensCache st) (tokensCacheTime st) st) eqn:Hfresh.
  - rewrite (getSupportedTokens_hit _ Hfresh) in Hrun.
    injection Hrun as _ <-. lia.
  - rewrite (getSupportedTokens_miss _ Hfresh) in Hrun.
    destruct (settled _) as [e|result]; [discriminate|].
    destruct (prop result "tokens") as [e|found]; [discriminate|].
    destruct (Object_keys found); [discriminate|].
    injection Hrun as <- <-. auto.
Qed.

Lemma getSupportedTokens_miss_sent st :
  isFresh (tokensCache st) (tokensCacheTime st) st = false ->
  sent (getSupportedTokens upstream st).2 = sent st ++ [(dispatchTime st, tokensUrl)].
Proof.
  intros Hfresh. rewrite (getSupportedTokens_miss _ Hfresh).
  destruct (settled _) as [e|result]; [reflexivity|].
  destruct (prop result "tokens") as [e|found]; reflexivity.
Qed.

(** What all endpoints failing leads to in [getSupportedProtocols]. *)
Lemma tryEndpoints_all_fail now urls :
  (forall n url, exists e, settled (outcome (upstream n url)) = inl e) ->
  forall st, exists st',
    tryEndpoints upstream now urls st = (inr mockProtocols, st')
    /\ protocolsCache st' = mockProtocols
    /\ protocolsCacheTime st' = now
    /\ length (sent st') = (length (sent st) + length urls)%nat.
Proof.
  intros Hdown. induction urls as [|url rest IH]; intros st.
  - eexists. split; [reflexivity|]. simpl. repeat split. lia.
  - simpl. unfold try_catch, tryEndpoint, bind.
    rewrite rateLimitedRequest_spec.
    destruct (Hdown (length (sent st)) url) as [e ->].
    destruct (IH (afterRequest upstream url st)) as (st' & Hrun & Hc & Ht & Hlen).
    exists st'. rewrite Hrun. repeat split; try assumption.
    rewrite Hlen, afterRequest_sent, length_app. simpl. lia.
Qed.

End Caches.

(** C2 fails as stated: a second call that starts less than [cacheExpiry]
    after the first call wrote the cache, but [cacheExpiry] or more after
    the first call started, goes to the network again. *)
Lemma cache_age_counterexample :
  ~ (forall (upstream : nat -> Url -> Reply) st0 tokens st1 d tokens' st2,
       getSupportedTokens upstream st0 = (inr tokens, st1) ->
       length (sent st1) = S (length (sent st0)) ->
       0 <= d < cacheExpiry ->
       getSupportedTokens upstream (elapse d st1) = (inr tokens', st2) ->
       length (sent st2) = S (length (sent st0))).
Proof.
  intros claim.
  pose (upstream := always 500 (Responded 200 "" (Some (JObj {[ "tokens" := JObj ∅ ]})))).
  pose (st0 := constructor 1000000).
  destruct (getSupportedTokens upstream st0) as [r1 st1] eqn:Hfirst.
  destruct (getSupportedTokens upstream (elapse 299700 st1)) as [r2 st2] eqn:Hsecond.
  vm_compute in Hfirst. injection Hfirst as <- <-.
  vm_compute in Hsecond. injection Hsecond as <- <-.
  specialize (claim upstream st0 _ _ 299700 _ _ eq_refl eq_refl ltac:(unfold cacheExpiry; lia) eq_refl).
  vm_compute in claim. discriminate claim.
Qed.

(** C2 (amended): the cache is stamped with the time at which the fetching
    call started.  Take a successful call that fetched the list and a
    second call that starts once the first one has returned, [d >= 0]
    milliseconds later, hence after the cache was written.  If the second
    call starts less than [cacheExpiry] after the start of the first one, it
    returns the cached list, provided it is truthy (every object is), and
    changes nothing: no wait, no request, one request in total.  If it
    starts [cacheExpiry] or more after the start of the first one, it sends
    a second request. *)
Theorem tokens_cached_since_call_start upstream st0 tokens st1 d :
  getSupportedTokens upstream st0 = (inr tokens, st1) ->
  length (sent st1) = S (length (sent st0)) ->
  0 <= d ->
  (truthy tokens = true ->
   clock (elapse d st1) - clock st0 < cacheExpiry ->
   getSupportedTokens upstream (elapse d st1) = (inr tokens, elapse d st1)
   /\ length (sent (elapse d st1)) = S (length (sent st0)))
  /\ (cacheExpiry <= clock (elapse d st1) - clock st0 ->
      length (sent (getSupportedTokens upstream (elapse d st1)).2)
      = S (S (length (sent st0)))).
Proof.
  intros Hrun Hsent _.
  destruct (getSupportedTokens_fetched upstream st0 tokens st1 Hrun Hsent)
    as (Hcache & Htime & _).
  split.
  - intros Htruthy Hage. split; [|exact Hsent].
    rewrite getSupportedTokens_hit; simpl.
    + rewrite Hcache. reflexivity.
    + unfold isFresh; simpl. rewrite Hcache, Htime, Htruthy. simpl.
      apply Z.ltb_lt. simpl in Hage. lia.
  - intros Hage. rewrite getSupportedTokens_miss_sent.
    + rewrite length_app. simpl in *. lia.
    + unfold isFresh; simpl. rewrite Htime.
      replace (clock st1 + d - clock st0 <? cacheExpiry) with false.
      * apply andb_false_r.
      * symmetry. apply Z.ltb_ge. simpl in Hage. lia.
Qed.

Lemma tokens_cached_since_call_start_witness :
  let upstream := always 500 (Responded 200 "" (Some (JObj {[ "tokens" := JObj ∅ ]}))) in
  let st0 := constructor 1000000 in
  let st1 := (getSupportedTokens upstream st0).2 in
  getSupportedTokens upstream (elapse 299000 st1) = (inr (JObj ∅), elapse 299000 st1)
  /\ length (sent (getSupportedTokens upstream (elapse 299500 st1)).2) = 2%nat.
Proof.
  intros upstream st0 st1.
  assert (Hfirst : getSupportedTokens upstream st0 = (inr (JObj ∅), st1))
    by (vm_compute; reflexivity).
  split.
  - apply (proj1 (tokens_cached_since_call_start upstream st0 _ st1 299000
                    Hfirst eq_refl ltac:(lia)));
      [reflexivity | vm_compute; reflexivity].
  - apply (proj2 (tokens_cached_since_call_start upstream st0 _ st1 299500
                    Hfirst eq_refl ltac:(lia))).
    vm_compute. discriminate.
Defined.





(** ** The proxy *)

Section ProxyProperties.

Variable runtime_message : Exn -> string.

Lemma forward_searchParams query url :
  searchParams (Proxy.forward query url)
  = searchParams url
    ++ map (fun kv => (kv.1, String_ kv.2)) (filter (fun kv => truthy kv.2) query).
Proof.
  unfold Proxy.forward. revert url.
  induction query as [|[key value] rest IH]; intros url; simpl.
  - symmetry; apply app_nil_r.
  - rewrite IH, filter_cons. unfold appendIf; simpl.
    destruct (truthy value); simpl.
    + rewrite <- app_assoc. reflexivity.
    + reflexivity.
Qed.

Lemma forward_endpoint query url :
  endpoint (Proxy.forward query url) = endpoint url.
Proof.
  unfold Proxy.forward. revert url.
  induction query as [|kv rest IH]; intros url; simpl; [reflexivity|].
  rewrite IH. apply endpoint_appendIf.
Qed.

End ProxyProperties.

(** C6 fails as stated: an upstream answer with status 400 is not relayed;
    the caller of [/api/quote] gets status 500 and another body. *)
Lemma proxy_relay_counterexample :
  ~ (forall runtime_message query status errorText body,
       let answer := (Proxy.api_quote runtime_message query
                        (Responded status errorText (Some body))).2 in
       Proxy.answer_status answer = status /\ Proxy.answer_body answer = body).
Proof.
  intros claim.
  destruct (claim noMessage [] 400 "insufficient liquidity"
                  (JObj {[ "error" := JStr "Bad Request" ]})) as [Hstatus _].
  vm_compute in Hstatus. discriminate Hstatus.
Qed.

(** C6 (amended): [/api/quote] requests the upstream quote endpoint with
    the query parameters whose value is truthy, in order, each as its string
    form; parameters with an empty value are left out, and [/api/tokens]
    forwards no parameter.  An upstream answer with a status in 200..299 and
    a JSON object as body is answered with status 200 and that body; an upstream
    answer with any other status is answered with status 500 and the body
    [{error: "Failed to get quote", details: "HTTP <status>: <text>"}].
    Both answers carry the CORS headers for [http://localhost:3000]. *)
Theorem proxy_quote_behaviour
    runtime_message query upstream status errorText props status' errorText' json :
  ok status = true ->
  ok status' = false ->
  ((Proxy.api_quote runtime_message query upstream).1
   = MkUrl (Proxy.BASE_URL +:+ "/quote")
           (map (fun kv => (kv.1, String_ kv.2)) (filter (fun kv => truthy kv.2) query)))
  /\ (Proxy.api_tokens runtime_message query upstream).1
     = MkUrl (Proxy.BASE_URL +:+ "/tokens") []
  /\ (Proxy.api_quote runtime_message query
        (Responded status errorText (Some (JObj props)))).2
     = Proxy.MkAnswer 200 (JObj props) Proxy.cors
  /\ (Proxy.api_quote runtime_message query (Responded status' errorText' json)).2
     = Proxy.MkAnswer 500
         (JObj {[ "error" := JStr "Failed to get quote";
                  "details" := JStr (http_message status' errorText') ]})
         Proxy.cors
  /\ In ("Access-Control-Allow-Origin", "http://localhost:3000") Proxy.cors.
Proof.
  intros Hok Hbad. repeat split.
  - unfold Proxy.api_quote; simpl.
    pose proof (forward_searchParams query (URL (Proxy.BASE_URL +:+ "/quote"))) as Hp.
    pose proof (forward_endpoint query (URL (Proxy.BASE_URL +:+ "/quote"))) as He.
    destruct (Proxy.forward query _) as [e ps]. simpl in *. subst. reflexivity.
  - unfold Proxy.api_quote, Proxy.relay; simpl. rewrite Hok. reflexivity.
  - unfold Proxy.api_quote, Proxy.relay; simpl. rewrite Hbad. reflexivity.
  - left. reflexivity.
Qed.

Lemma proxy_quote_behaviour_witness :
  (Proxy.api_quote noMessage
     [("src", JStr "A"); ("dst", JStr "B"); ("amount", JStr "1000"); ("fee", JStr "")]
     Unreachable).1
  = MkUrl (Proxy.BASE_URL +:+ "/quote") [("src", "A"); ("dst", "B"); ("amount", "1000")]
  /\ (Proxy.api_quote noMessage [] (Responded 401 "Unauthorized" None)).2
     = Proxy.MkAnswer 500
         (JObj {[ "error" := JStr "Failed to get quote";
                  "details" := JStr "HTTP 401: Unauthorized" ]})
         Proxy.cors.
Proof.
  split.
  - exact (proj1 (proxy_quote_behaviour noMessage
             [("src", JStr "A"); ("dst", JStr "B"); ("amount", JStr "1000"); ("fee", JStr "")]
             Unreachable 200 "" ∅ 401 "Unauthorized" None eq_refl eq_refl)).
  - exact (proj1 (proj2 (proj2 (proj2 (proxy_quote_behaviour noMessage []
             Unreachable 200 "" ∅ 401 "Unauthorized" None eq_refl eq_refl))))).
Defined.

(** ** Concurrent callers *)

Section Burst.

Import EventLoop.

(** Timers [T + requestInterval] away, seen at time [T]. *)
Variable T : Z.

Let W : Z := T + requestInterval.

Lemma waiting_not_due ts :
  waiting W ts -> filter (fun t : Z * nat => t.1 ≤ T) ts = [].
Proof.
  unfold waiting, W, requestInterval.
  induction 1 as [|t ts Ht _ IH]; [reflexivity|].
  rewrite filter_cons, decide_False by lia. exact IH.
Qed.

Lemma waiting_kept ts :
  waiting W ts -> filter (fun t : Z * nat => ¬ t.1 ≤ T) ts = ts.
Proof.
  unfold waiting, W, requestInterval.
  induction 1 as [|t ts Ht _ IH]; [reflexivity|].
  rewrite filter_cons, decide_True by lia. f_equal. exact IH.
Qed.

Lemma arm_waiting caller ts :
  waiting W ts -> arm (W, caller) ts = ts ++ [(W, caller)].
Proof.
  unfold waiting. induction 1 as [|t ts Ht _ IH]; [reflexivity|].
  simpl. rewrite Ht, Z.ltb_irrefl, IH. reflexivity.
Qed.

Lemma waiting_times ts : waiting W ts -> map fst ts = replicate (length ts) W.
Proof.
  unfold waiting. induction 1 as [|t ts Ht _ IH]; [reflexivity|].
  simpl. rewrite Ht, IH. reflexivity.
Qed.

Lemma fire_dispatched due l :
  map fst (dispatched (fire due l)) = map fst (dispatched l) ++ map fst due.
Proof.
  revert l. induction due as [|[wake caller] rest IH]; intros l; simpl.
  - symmetry; apply app_nil_r.
  - rewrite IH. simpl. rewrite map_app, <- app_assoc. reflexivity.
Qed.

(** A call that is alone leaves when the sequential model says it does. *)
Lemma single_call_dispatch now last caller log :
  map fst (dispatched (run [now] caller (MkLoop last [] log)))
  = map fst log ++ [dispatchTime (MkState now [] last JNull 0 JNull 0)].
Proof.
  simpl. unfold advance, enter, dispatchTime; simpl.
  destruct (now - last <? requestInterval); simpl; rewrite map_app; simpl.
  - do 2 f_equal. lia.
  - reflexivity.
Qed.

(** Calls made at [T] while the last request left at [T]: each one arms a
    timer for [T + requestInterval], and all of them fire together. *)
Lemma run_waiting n : forall caller ts log,
  waiting W ts ->
  map fst (dispatched (run (replicate n T) caller (MkLoop T ts log)))
  = map fst log ++ replicate (length ts + n) W.
Proof.
  induction n as [|n IH]; intros caller ts log Hts.
  - simpl. rewrite fire_dispatched. simpl.
    rewrite (waiting_times _ Hts), Nat.add_0_r. reflexivity.
  - simpl. unfold advance; simpl.
    rewrite (waiting_not_due _ Hts), (waiting_kept _ Hts). simpl.
    unfold enter; simpl.
    rewrite Z.sub_diag. change (0 <? requestInterval) with true. cbv iota.
    replace (T + (requestInterval - 0)) with W by (unfold W; lia).
    rewrite (arm_waiting _ _ Hts), IH.
    + rewrite length_app. simpl. f_equal. f_equal. lia.
    + apply Forall_app. split; [exact Hts|]. constructor; [reflexivity|constructor].
Qed.

(** On a fresh instance, the first of [S n] calls made together at [T]
    leaves at [T] and all the others leave together, one interval later. *)
Lemma burst_times n :
  requestInterval <= T ->
  burst T (S n) = T :: replicate n (T + requestInterval).
Proof.
  intros HT. unfold burst. simpl. unfold advance, enter; simpl.
  rewrite Z.sub_0_r.
  replace (T <? requestInterval) with false by (symmetry; apply Z.ltb_ge; exact HT).
  unfold resume; simpl. rewrite run_waiting by constructor. reflexivity.
Qed.

End Burst.

(** C1, evaluated where it fails: three [getQuote] calls made together at
    time 5000 on a fresh instance are dispatched at 5000, 6000 and 6000.  The
    second and third requests leave together, and the third one leaves
    before [5000 + 2 * requestInterval].  However many calls are made
    together, all but the first leave at 6000. *)
Theorem concurrent_calls_leave_together :
  EventLoop.burst 5000 3 = [5000; 6000; 6000]
  /\ (forall n, EventLoop.burst 5000 (S n) = 5000 :: replicate n 6000)
  /\ ~ (forall T n K d,
          EventLoop.burst T n !! K = Some d ->
          T + Z.of_nat K * requestInterval <= d).
Proof.
  split; [reflexivity|]. split.
  - intros n. apply (burst_times 5000 n). unfold requestInterval. lia.
  - intros claim.
    specialize (claim 5000 3%nat 2%nat 6000 eq_refl).
    unfold requestInterval in claim. lia.
Qed.

(** * Further properties of the client *)

(** ** What every operation keeps true *)

Section Preservation.

Variable upstream : nat -> Url -> Reply.
Variable quotient : Value -> Value -> Value.
Variable BigInt : Value -> Exn + Z.
Variable P : State -> Prop.

Lemma preserves_unchanged {A} (m : M A) :
  (forall st, (m st).2 = st) -> preserves P m.
Proof. intros Hm st HP. rewrite Hm. exact HP. Qed.

Lemma preserves_ret {A} (a : A) : preserves P (ret a).
Proof. apply preserves_unchanged. reflexivity. Qed.

Lemma preserves_throw {A} e : preserves P (@throw A e).
Proof. apply preserves_unchanged. reflexivity. Qed.

Lemma preserves_lift {A} (r : Exn + A) : preserves P (lift r).
Proof. apply preserves_unchanged. reflexivity. Qed.

Lemma preserves_bind {A B} (m : M A) (k : A -> M B) :
  preserves P m -> (forall a, preserves P (k a)) -> preserves P (bind m k).
Proof.
  intros Hm Hk st HP. unfold bind. specialize (Hm st HP).
  destruct (m st) as [[e|a] st']; simpl in *; [exact Hm|].
  apply Hk. exact Hm.
Qed.

Lemma preserves_try_catch {A} (m : M A) (handler : Exn -> M A) :
  preserves P m -> (forall e, preserves P (handler e)) ->
  preserves P (try_catch m handler).
Proof.
  intros Hm Hh st HP. unfold try_catch. specialize (Hm st HP).
  destruct (m st) as [[e|a] st']; simpl in *; [|exact Hm].
  apply Hh. exact Hm.
Qed.

Hypothesis P_request : forall url st, P st -> P (afterRequest upstream url st).

Lemma preserves_rateLimitedRequest url :
  preserves P (rateLimitedRequest upstream url).
Proof. intros st HP. rewrite rateLimitedRequest_spec. apply P_request, HP. Qed.

(** Takes a goal [preserves P m] apart along the structure of [m]. *)
Ltac preserve :=
  repeat first
    [ apply preserves_ret
    | apply preserves_throw
    | apply preserves_lift
    | apply preserves_rateLimitedRequest
    | assumption
    | apply preserves_bind; [|intros ?]
    | apply preserves_try_catch; [|intros ?]
    | apply preserves_unchanged; reflexivity
    | match goal with
      | |- preserves _ (if ?c then _ else _) => destruct c
      | |- preserves _ (match ?x with _ => _ end) => destruct x
      end ].

Lemma preserves_getQuote srcToken dstToken amount options :
  preserves P (getQuote upstream quotient srcToken dstToken amount options).
Proof. unfold getQuote. preserve. Qed.

Lemma preserves_buildSwap srcToken dstToken amount fromAddress options :
  preserves P (buildSwap upstream srcToken dstToken amount fromAddress options).
Proof. unfold buildSwap. preserve. Qed.

Lemma preserves_checkAllowance tokenAddress walletAddress :
  preserves P (checkAllowance upstream tokenAddress walletAddress).
Proof. unfold checkAllowance. preserve. Qed.

Lemma preserves_getSpender : preserves P (getSpender upstream).
Proof. unfold getSpender. preserve. Qed.

Lemma preserves_buildApproval tokenAddress amount :
  preserves P (buildApproval upstream tokenAddress amount).
Proof. unfold buildApproval. preserve. Qed.

Lemma preserves_executeSwapWorkflow wallet srcToken dstToken amount options :
  preserves P (executeSwapWorkflow upstream quotient BigInt wallet
                 srcToken dstToken amount options).
Proof.
  pose proof preserves_getQuote. pose proof preserves_buildSwap.
  pose proof preserves_checkAllowance. pose proof preserves_buildApproval.
  unfold executeSwapWorkflow, checkApproval.
  preserve; auto.
Qed.

Hypothesis P_tokens : forall v t st, P st -> P (set_tokensCache v t st).2.
Hypothesis P_protocols : forall v t st, P st -> P (set_protocolsCache v t st).2.

Lemma preserves_getSupportedTokens : preserves P (getSupportedTokens upstream).
Proof.
  pose proof (fun v t => P_tokens v t : preserves P (set_tokensCache v t)).
  unfold getSupportedTokens. preserve; auto.
Qed.

Lemma preserves_tryEndpoints now urls :
  preserves P (tryEndpoints upstream now urls).
Proof.
  pose proof (fun v t => P_protocols v t : preserves P (set_protocolsCache v t)).
  induction urls as [|url rest IH]; simpl; unfold tryEndpoint; preserve; auto.
Qed.

Lemma preserves_getSupportedProtocols : preserves P (getSupportedProtocols upstream).
Proof.
  unfold getSupportedProtocols.
  apply preserves_bind; [preserve|intros now].
  apply preserves_bind; [preserve|intros cache].
  destruct (truthy cache.1 && (now - cache.2 <? cacheExpiry)); [preserve|].
  apply preserves_tryEndpoints.
Qed.

Lemma preserves_perform c : preserves P (perform upstream quotient BigInt c).
Proof.
  destruct c; simpl;
    auto using preserves_getSupportedTokens, preserves_getSupportedProtocols,
      preserves_getQuote, preserves_buildSwap, preserves_checkAllowance,
      preserves_getSpender, preserves_buildApproval, preserves_executeSwapWorkflow.
Qed.

Hypothesis P_elapse : forall d st, P st -> P (elapse d st).

Lemma session_preserves calls :
  forall st, P st -> P (session upstream quotient BigInt calls st).
Proof.
  induction calls as [|[d c] rest IH]; intros st HP; simpl; [exact HP|].
  apply IH, preserves_perform, P_elapse, HP.
Qed.

End Preservation.

(** ** Calls made one after the other are paced *)

Lemma spaced_nil : spaced [].
Proof. intros i j a b _ Hi. rewrite lookup_nil in Hi. discriminate. Qed.

Lemma spaced_snoc ts t :
  spaced ts -> Forall (fun a => a + requestInterval <= t) ts -> spaced (ts ++ [t]).
Proof.
  intros Hts Hall i j a b Hij Hi Hj.
  assert (Hjlen : (j < length (ts ++ [t]))%nat) by (eapply lookup_lt_Some; eauto).
  rewrite length_app in Hjlen. simpl in Hjlen.
  destruct (decide (j < length ts)%nat) as [Hj'|Hj'].
  - rewrite lookup_app_l in Hj by lia. rewrite lookup_app_l in Hi by lia.
    exact (Hts i j a b Hij Hi Hj).
  - assert (j = length ts) by lia. subst j.
    rewrite lookup_app_l in Hi by lia.
    rewrite lookup_app_r in Hj by lia. rewrite Nat.sub_diag in Hj.
    injection Hj as <-.
    rewrite Forall_lookup in Hall. exact (Hall i a Hi).
Qed.

Lemma paced_constructor t : paced (constructor t).
Proof. split; [apply spaced_nil | constructor]. Qed.

Lemma paced_afterRequest upstream url st :
  paced st -> paced (afterRequest upstream url st).
Proof.
  intros [Hspaced Hlast].
  destruct (rateLimitedRequest_paced upstream url st) as (Hgap & _ & _).
  unfold paced, dispatchTimes, afterRequest in *; simpl.
  rewrite map_app; simpl. split.
  - apply spaced_snoc; [exact Hspaced|].
    eapply Forall_impl; [exact Hlast|]. simpl. intros a Ha. lia.
  - apply Forall_app. split.
    + eapply Forall_impl; [exact Hlast|]. simpl. intros a Ha.
      unfold requestInterval in Hgap. lia.
    + constructor; [lia|constructor].
Qed.

(** X1: however the operations of one instance are mixed, and however long
    the caller waits between them, when each call is awaited before the next
    one is made any two requests ever dispatched are at least
    [requestInterval] apart. *)
Theorem awaited_calls_are_paced upstream quotient BigInt t calls :
  spaced (dispatchTimes (session upstream quotient BigInt calls (constructor t))).
Proof.
  apply (session_preserves upstream quotient BigInt paced).
  - apply paced_afterRequest.
  - intros v t' st H. exact H.
  - intros v t' st H. exact H.
  - intros d st H. exact H.
  - apply paced_constructor.
Qed.

(** X2: the operations that fetch prices, transactions and allowances never
    write a cache, and each of the two list operations writes its own cache
    only. *)
Theorem caches_written_by_their_operation_only upstream quotient BigInt c st :
  c <> CallTokens -> c <> CallProtocols ->
  caches (perform upstream quotient BigInt c st).2 = caches st
  /\ (let st' := (getSupportedTokens upstream st).2 in
      protocolsCache st' = protocolsCache st
      /\ protocolsCacheTime st' = protocolsCacheTime st)
  /\ (let st' := (getSupportedProtocols upstream st).2 in
      tokensCache st' = tokensCache st
      /\ tokensCacheTime st' = tokensCacheTime st).
Proof.
  intros Htokens Hprotocols. split; [|split].
  - set (P := fun s => caches s = caches st).
    assert (Hreq : forall url s, P s -> P (afterRequest upstream url s))
      by (intros url s H; exact H).
    destruct c; try congruence; simpl.
    + apply (preserves_getQuote upstream quotient P Hreq). reflexivity.
    + apply (preserves_buildSwap upstream P Hreq). reflexivity.
    + apply (preserves_checkAllowance upstream P Hreq). reflexivity.
    + apply (preserves_getSpender upstream P Hreq). reflexivity.
    + apply (preserves_buildApproval upstream P Hreq). reflexivity.
    + apply (preserves_executeSwapWorkflow upstream quotient BigInt P Hreq). reflexivity.
  - set (P := fun s => protocolsCache s = protocolsCache st
                       /\ protocolsCacheTime s = protocolsCacheTime st).
    apply (preserves_getSupportedTokens upstream P).
    + intros url s H. exact H.
    + intros v t s H. exact H.
    + split; reflexivity.
  - set (P := fun s => tokensCache s = tokensCache st
                       /\ tokensCacheTime s = tokensCacheTime st).
    apply (preserves_getSupportedProtocols upstream P).
    + intros url s H. exact H.
    + intros v t s H. exact H.
    + split; reflexivity.
Qed.

Lemma caches_written_by_their_operation_only_witness :
  let upstream := always 100 (Responded 200 "" (Some quoteBody)) in
  let st := MkState 1000000 [] 0 (JObj ∅) 7 (JArr []) 9 in
  caches (perform upstream noQuotient (fun _ => inr 0)
            (CallQuote "A" "B" (JStr "1") ∅) st).2
  = (JObj ∅, 7, JArr [], 9).
Proof.
  intros upstream st.
  refine (proj1 (caches_written_by_their_operation_only upstream noQuotient
                   (fun _ => inr 0) (CallQuote "A" "B" (JStr "1") ∅) st _ _));
    discriminate.
Defined.

(** X3: a paced request leaves at the later of now and [requestInterval]
    after the previous request, whether it then succeeds or fails, and
    [lastRequest] becomes that time.  A caller whose clock is not behind
    [lastRequest] therefore never waits longer than [requestInterval], and
    does not wait at all once [requestInterval] has passed. *)
Theorem paced_request_wait upstream url st :
  lastRequest st <= clock st ->
  let st' := (rateLimitedRequest upstream url st).2 in
  let t := Z.max (clock st) (lastRequest st + requestInterval) in
  sent st' = sent st ++ [(t, url)]
  /\ lastRequest st' = t
  /\ clock st <= t <= clock st + requestInterval
  /\ (lastRequest st + requestInterval <= clock st -> t = clock st).
Proof.
  intros Hclock. rewrite rateLimitedRequest_spec. simpl.
  unfold dispatchTime.
  destruct (Z.ltb_spec (clock st - lastRequest st) requestInterval) as [H|H].
  - rewrite Z.max_r by lia. unfold requestInterval in *. repeat split; lia.
  - rewrite Z.max_l by lia. unfold requestInterval in *. repeat split; lia.
Qed.

Lemma paced_request_wait_witness :
  let upstream := always 100 (Responded 503 "busy" None) in
  let st := MkState 5400 [] 5000 JNull 0 JNull 0 in
  let st' := (rateLimitedRequest upstream tokensUrl st).2 in
  sent st' = [(6000, tokensUrl)] /\ lastRequest st' = 6000.
Proof.
  intros upstream st st'.
  pose proof (paced_request_wait upstream tokensUrl st) as H.
  destruct H as (Hsent & Hlast & _); [vm_compute; discriminate|].
  split; [exact Hsent | exact Hlast].
Defined.

(** ** Callers of one instance that do not await each other *)

Section Gate.

Import EventLoop.

Lemma fire_callers due l :
  map snd (dispatched (fire due l)) = map snd (dispatched l) ++ map snd due.
Proof.
  revert l. induction due as [|[wake caller] rest IH]; intros l; simpl.
  - symmetry; apply app_nil_r.
  - rewrite IH. simpl. rewrite map_app, <- app_assoc. reflexivity.
Qed.

Lemma fire_timers due l : timers (fire due l) = timers l.
Proof.
  revert l. induction due as [|[wake caller] rest IH]; intros l; simpl;
    [reflexivity|]. rewrite IH. reflexivity.
Qed.

Lemma arm_Permutation t ts : arm t ts ≡ₚ t :: ts.
Proof.
  induction ts as [|u us IH]; simpl; [reflexivity|].
  destruct (t.1 <? u.1); [reflexivity|].
  rewrite IH. apply Permutation_swap.
Qed.

Lemma advance_callers now l :
  map snd (dispatched (advance now l)) ++ map snd (timers (advance now l))
  ≡ₚ map snd (dispatched l) ++ map snd (timers l).
Proof.
  unfold advance. rewrite fire_callers, fire_timers. simpl.
  rewrite <- app_assoc, <- map_app.
  rewrite (filter_app_complement (fun t : Z * nat => t.1 ≤ now) (timers l)).
  reflexivity.
Qed.

Lemma enter_callers now caller l :
  map snd (dispatched (enter now caller l)) ++ map snd (timers (enter now caller l))
  ≡ₚ caller :: map snd (dispatched l) ++ map snd (timers l).
Proof.
  unfold enter. destruct (now - lastRequest l <? requestInterval); simpl.
  - rewrite arm_Permutation. simpl. symmetry. apply Permutation_middle.
  - rewrite map_app. simpl. rewrite <- app_assoc. simpl.
    symmetry. apply Permutation_middle.
Qed.

Lemma run_callers calls : forall caller l,
  map snd (dispatched (run calls caller l))
  ≡ₚ (map snd (dispatched l) ++ map snd (timers l)) ++ seq caller (length calls).
Proof.
  induction calls as [|now rest IH]; intros caller l; simpl.
  - rewrite fire_callers. simpl. rewrite app_nil_r. reflexivity.
  - rewrite IH, enter_callers, advance_callers. simpl.
    apply Permutation_middle.
Qed.

(** X4: whenever the calls are made, each of them is dispatched exactly
    once: the callers in the dispatch log are the callers, rearranged. *)
Theorem every_call_is_dispatched_once calls :
  map snd (dispatched (run calls 0%nat fresh)) ≡ₚ seq 0 (length calls).
Proof. rewrite run_callers. reflexivity. Qed.

(** Calls that are far enough apart find the gate open. *)
Lemma run_apart calls : forall caller last log,
  apart last calls ->
  map fst (dispatched (run calls caller (MkLoop last [] log)))
  = map fst log ++ calls.
Proof.
  induction calls as [|now rest IH]; intros caller last log Hapart; simpl.
  - symmetry; apply app_nil_r.
  - destruct Hapart as [Hnow Hrest].
    unfold advance, enter; simpl.
    replace (now - last <? requestInterval) with false
      by (symmetry; apply Z.ltb_ge; lia).
    unfold resume; simpl. rewrite (IH _ _ _ Hrest), map_app, <- app_assoc.
    reflexivity.
Qed.

(** X6: calls made [requestInterval] or more after one another, the first
    one that long after time 0, are never delayed: each request leaves at
    the time of its call. *)
Theorem spaced_calls_are_not_delayed calls :
  apart 0 calls ->
  map fst (dispatched (run calls 0%nat fresh)) = calls.
Proof. intros Hapart. exact (run_apart calls 0%nat 0 [] Hapart). Qed.

Lemma spaced_calls_are_not_delayed_witness :
  map fst (dispatched (run [5000; 6000; 7500] 0%nat fresh)) = [5000; 6000; 7500].
Proof.
  apply (spaced_calls_are_not_delayed [5000; 6000; 7500]).
  simpl. unfold requestInterval. lia.
Defined.

End Gate.

Section Delay.

Import EventLoop.

(** The times of all the calls, by caller. *)
Variable all : list Z.

(** A timer or a dispatch of a caller, at most [requestInterval] after the
    call. *)
Let within (d : Z * nat) : Prop :=
  exists called, all !! d.2 = Some called
                 /\ called <= d.1 <= called + requestInterval.

Lemma Forall_filter_keep {A} (Q : A -> Prop) (P : A -> Prop)
    `{forall x, Decision (P x)} (l : list A) :
  Forall Q l -> Forall Q (filter P l).
Proof.
  rewrite !Forall_forall. intros Hl x Hx.
  apply list_elem_of_filter in Hx as [_ Hx]. auto.
Qed.

Lemma fire_within due l :
  Forall within due -> Forall within (dispatched l) ->
  Forall within (dispatched (fire due l)).
Proof.
  revert l. induction due as [|[wake caller] rest IH]; intros l Hdue Hlog; simpl;
    [exact Hlog|].
  inversion Hdue; subst. apply IH; [assumption|]. simpl.
  apply Forall_app. split; [exact Hlog|]. constructor; [assumption|constructor].
Qed.

Lemma fire_lastRequest now due l :
  Forall (fun t : Z * nat => t.1 <= now) due -> lastRequest l <= now ->
  lastRequest (fire due l) <= now.
Proof.
  revert l. induction due as [|[wake caller] rest IH]; intros l Hdue Hlast; simpl;
    [exact Hlast|].
  inversion Hdue; subst. apply IH; [assumption|]. simpl in *. lia.
Qed.

Lemma advance_within now l :
  lastRequest l <= now ->
  Forall within (timers l) -> Forall within (dispatched l) ->
  Forall within (timers (advance now l))
  /\ Forall within (dispatched (advance now l))
  /\ lastRequest (advance now l) <= now.
Proof.
  intros Hlast Htimers Hlog. unfold advance. repeat split.
  - rewrite fire_timers. simpl. apply Forall_filter_keep, Htimers.
  - apply fire_within; [apply Forall_filter_keep, Htimers | exact Hlog].
  - apply fire_lastRequest; [|exact Hlast].
    apply Forall_forall. intros t Ht.
    apply list_elem_of_filter in Ht as [Ht _]. exact Ht.
Qed.

Lemma enter_within now caller l :
  all !! caller = Some now -> lastRequest l <= now ->
  Forall within (timers l) -> Forall within (dispatched l) ->
  Forall within (timers (enter now caller l))
  /\ Forall within (dispatched (enter now caller l))
  /\ lastRequest (enter now caller l) <= now.
Proof.
  intros Hcall Hlast Htimers Hlog. unfold enter.
  destruct (Z.ltb_spec (now - lastRequest l) requestInterval) as [Hwait|Hgo]; simpl.
  - repeat split; [|exact Hlog|exact Hlast].
    rewrite arm_Permutation. constructor; [|exact Htimers].
    exists now. simpl. split; [exact Hcall|]. lia.
  - repeat split; [exact Htimers| |lia].
    apply Forall_app. split; [exact Hlog|]. constructor; [|constructor].
    exists now. simpl. split; [exact Hcall|]. unfold requestInterval. lia.
Qed.

Lemma ascending_from from from' calls :
  from' <= from -> ascending from calls -> ascending from' calls.
Proof. destruct calls; simpl; [auto|]. intros ? [? ?]. split; [lia|assumption]. Qed.

Lemma run_within calls : forall caller l,
  (forall i t, calls !! i = Some t -> all !! (caller + i)%nat = Some t) ->
  ascending (lastRequest l) calls ->
  Forall within (timers l) -> Forall within (dispatched l) ->
  Forall within (dispatched (run calls caller l)).
Proof.
  induction calls as [|now rest IH]; intros caller l Hall Hasc Htimers Hlog; simpl.
  - apply fire_within; assumption.
  - destruct Hasc as [Hlast Hrest].
    assert (Hcall : all !! caller = Some now)
      by (rewrite <- (Nat.add_0_r caller); apply Hall; reflexivity).
    destruct (advance_within now l Hlast Htimers Hlog) as (Ht1 & Hd1 & Hl1).
    destruct (enter_within now caller (advance now l) Hcall Hl1 Ht1 Hd1)
      as (Ht2 & Hd2 & Hl2).
    apply IH; [|eapply ascending_from; eassumption|assumption|assumption].
    intros i t Hi. replace (S caller + i)%nat with (caller + S i)%nat by lia.
    apply Hall. exact Hi.
Qed.

End Delay.

(** X5: when the times of the calls do not go back, every request leaves no
    earlier than its call and no later than [requestInterval] after it,
    however many calls are waiting: the gate holds a caller back for one
    interval at most and never queues. *)
Theorem no_caller_waits_longer_than_one_interval calls :
  ascending 0 calls ->
  Forall (fun d : Z * nat =>
            exists called, calls !! d.2 = Some called
                           /\ called <= d.1 <= called + requestInterval)
         (EventLoop.dispatched (EventLoop.run calls 0%nat EventLoop.fresh)).
Proof.
  intros Hasc.
  apply (run_within calls calls 0%nat EventLoop.fresh); simpl; auto.
Qed.

Lemma no_caller_waits_longer_than_one_interval_witness :
  Forall (fun d : Z * nat =>
            exists called, [5000; 5000; 5300; 9000] !! d.2 = Some called
                           /\ called <= d.1 <= called + requestInterval)
         (EventLoop.dispatched
            (EventLoop.run [5000; 5000; 5300; 9000] 0%nat EventLoop.fresh)).
Proof.
  apply (no_caller_waits_longer_than_one_interval [5000; 5000; 5300; 9000]).
  simpl. lia.
Defined.

(** ** More on the caches *)

Section MoreCaches.

Variable upstream : nat -> Url -> Reply.

Lemma getSupportedProtocols_hit st :
  isFresh (protocolsCache st) (protocolsCacheTime st) st = true ->
  getSupportedProtocols upstream st = (inr (protocolsCache st), st).
Proof.
  unfold isFresh, getSupportedProtocols, bind, Date_now; simpl.
  intros ->. reflexivity.
Qed.

Lemma getSupportedProtocols_miss st :
  isFresh (protocolsCache st) (protocolsCacheTime st) st = false ->
  getSupportedProtocols upstream st = tryEndpoints upstream (clock st) endpoints st.
Proof.
  unfold isFresh, getSupportedProtocols, bind, Date_now; simpl.
  intros ->. reflexivity.
Qed.

(** The loop over the endpoints always ends with a list, which it has
    cached. *)
Lemma tryEndpoints_returns now urls : forall st,
  exists v st',
    tryEndpoints upstream now urls st = (inr v, st')
    /\ protocolsCache st' = v
    /\ protocolsCacheTime st' = now
    /\ (length (sent st) + Nat.min 1 (length urls) <= length (sent st')
        <= length (sent st) + length urls)%nat.
Proof.
  induction urls as [|url rest IH]; intros st.
  - eexists _, _. split; [reflexivity|]. simpl. repeat split; lia.
  - simpl tryEndpoints. unfold try_catch, tryEndpoint, bind.
    rewrite rateLimitedRequest_spec.
    assert (Hnext : forall st1,
              length (sent st1) = S (length (sent st)) ->
              exists v st',
                tryEndpoints upstream now rest st1 = (inr v, st')
                /\ protocolsCache st' = v /\ protocolsCacheTime st' = now
                /\ (length (sent st) + Nat.min 1 (length (url :: rest))
                    <= length (sent st')
                    <= length (sent st) + length (url :: rest))%nat).
    { intros st1 Hlen. destruct (IH st1) as (v & st' & Hrun & Hc & Ht & Hl).
      exists v, st'. simpl. repeat split; try assumption; lia. }
    assert (Hsent : length (sent (afterRequest upstream url st)) = S (length (sent st)))
      by (rewrite afterRequest_sent, length_app; simpl; lia).
    destruct (settled _) as [e|result]; [apply Hnext, Hsent|].
    unfold lift. destruct (prop result "protocols") as [e|protocols];
      [apply Hnext, Hsent|].
    cbn beta iota. unfold set_protocolsCache at 1. cbn beta iota.
    destruct (prop (or_else protocols result) "length") as [e|n].
    + apply Hnext. exact Hsent.
    + eexists _, _. split; [reflexivity|]. simpl. rewrite length_app. simpl.
      repeat split; lia.
Qed.

End MoreCaches.

(** X7: [getSupportedProtocols] never throws, whatever the upstream does.
    It returns either the cached list, without any request and leaving the
    instance as it was, or a list it has just cached under the time the call
    started, after one to three requests. *)
Theorem getSupportedProtocols_always_returns upstream st :
  exists v st',
    getSupportedProtocols upstream st = (inr v, st')
    /\ ((v = protocolsCache st /\ st' = st)
        \/ (protocolsCache st' = v /\ protocolsCacheTime st' = clock st
            /\ (length (sent st) < length (sent st') <= length (sent st) + 3)%nat)).
Proof.
  destruct (isFresh (protocolsCache st) (protocolsCacheTime st) st) eqn:Hfresh.
  - exists (protocolsCache st), st.
    rewrite (getSupportedProtocols_hit _ _ Hfresh). auto.
  - rewrite (getSupportedProtocols_miss _ _ Hfresh).
    destruct (tryEndpoints_returns upstream (clock st) endpoints st)
      as (v & st' & Hrun & Hc & Ht & Hl).
    exists v, st'. split; [exact Hrun|]. right. simpl in Hl.
    repeat split; try assumption; lia.
Qed.

(** X8: an outage is cached.  After a call during which every endpoint
    failed, a call that starts less than [cacheExpiry] after the start of
    that call returns the mock list without any request, whatever the
    upstream would answer by then. *)
Theorem outage_is_served_from_cache upstream upstream' st d :
  (forall n url, exists e, settled (outcome (upstream n url)) = inl e) ->
  isFresh (protocolsCache st) (protocolsCacheTime st) st = false ->
  let st1 := (getSupportedProtocols upstream st).2 in
  clock (elapse d st1) - clock st < cacheExpiry ->
  getSupportedProtocols upstream' (elapse d st1) = (inr mockProtocols, elapse d st1).
Proof.
  intros Hdown Hfresh st1 Hage. subst st1.
  rewrite (getSupportedProtocols_miss _ _ Hfresh) in *.
  destruct (tryEndpoints_all_fail upstream (clock st) endpoints Hdown st)
    as (st1 & Hrun & Hcache & Htime & _).
  rewrite Hrun in *. simpl in *.
  rewrite getSupportedProtocols_hit; simpl.
  - rewrite Hcache. reflexivity.
  - unfold isFresh; simpl. rewrite Hcache, Htime. simpl.
    apply Z.ltb_lt. lia.
Qed.

Lemma outage_is_served_from_cache_witness :
  let down := always 100 (Responded 503 "down" None) in
  let up := always 100 (Responded 200 ""
                          (Some (JObj {[ "protocols" := JArr [JStr "CURVE"] ]}))) in
  let st1 := (getSupportedProtocols down (constructor 1000000)).2 in
  getSupportedProtocols up (elapse 60000 st1) = (inr mockProtocols, elapse 60000 st1).
Proof.
  intros down up st1.
  apply (outage_is_served_from_cache down up (constructor 1000000) 60000).
  - intros n url. eexists. reflexivity.
  - reflexivity.
  - vm_compute. reflexivity.
Defined.

(** X9: a 2xx answer to the token request whose JSON object has no [tokens]
    makes [getSupportedTokens] throw a [TypeError], after it has replaced
    the cached list by [undefined]: the list cached before is lost. *)
Theorem tokens_answer_without_tokens upstream st status errorText props :
  isFresh (tokensCache st) (tokensCacheTime st) st = false ->
  outcome (upstream (length (sent st)) tokensUrl)
  = Responded status errorText (Some (JObj props)) ->
  ok status = true ->
  props !! "tokens" = None ->
  exists st',
    getSupportedTokens upstream st = (inl TypeError, st')
    /\ tokensCache st' = JUndefined
    /\ tokensCacheTime st' = clock st.
Proof.
  intros Hfresh Hreply Hok Hnone.
  rewrite (getSupportedTokens_miss _ _ Hfresh), Hreply.
  unfold settled. rewrite Hok. unfold prop. rewrite Hnone.
  simpl. eexists. repeat split.
Qed.

Lemma tokens_answer_without_tokens_witness :
  let upstream := always 100 (Responded 200 "" (Some (JObj {[ "error" := JStr "x" ]}))) in
  let st := MkState 1000000 [] 0 (JObj {[ "0xA" := JStr "token" ]}) 1000 JNull 0 in
  exists st',
    getSupportedTokens upstream st = (inl TypeError, st')
    /\ tokensCache st' = JUndefined
    /\ tokensCacheTime st' = 1000000.
Proof.
  intros upstream st.
  apply (tokens_answer_without_tokens upstream st 200 "" {[ "error" := JStr "x" ]});
    reflexivity.
Defined.

(** ** Requests and results of the other operations *)

Lemma searchParams_appendIf_eq c k v url :
  searchParams (appendIf c k v url)
  = searchParams url ++ (if truthy c then [(k, String_ v)] else []).
Proof.
  unfold appendIf. destruct (truthy c); simpl; [reflexivity|].
  symmetry; apply app_nil_r.
Qed.

(** X10: the failures that are found before the network is used leave the
    instance untouched and send nothing: an amount without [toString]
    ([null], [undefined]) in [getQuote] and [buildSwap], a missing sender
    address in [buildSwap], a missing wallet in [executeSwapWorkflow]. *)
Theorem local_failures_send_nothing
    upstream quotient BigInt src dst amount amount' sender fromAddress wallet options st e :
  toString amount = inl e ->
  truthy sender = true ->
  truthy fromAddress = false ->
  getQuote upstream quotient src dst amount options st = (inl e, st)
  /\ buildSwap upstream src dst amount sender options st = (inl e, st)
  /\ buildSwap upstream src dst amount' fromAddress options st
     = (inl (Error "From address is required for swap building"), st)
  /\ executeSwapWorkflow upstream quotient BigInt None src dst amount' options st
     = (inl (Error "Wallet is required for executing transactions"), st)
  /\ executeSwapWorkflow upstream quotient BigInt (Some wallet) src dst amount options st
     = (inl e, st).
Proof.
  intros Hamount Hsender Hfrom.
  assert (Hquote : getQuote upstream quotient src dst amount options st = (inl e, st))
    by (unfold getQuote, bind, lift; rewrite Hamount; reflexivity).
  repeat split.
  - exact Hquote.
  - unfold buildSwap, bind, lift. rewrite Hsender, Hamount. reflexivity.
  - unfold buildSwap. rewrite Hfrom. reflexivity.
  - unfold executeSwapWorkflow, try_catch, bind. rewrite Hquote. reflexivity.
Qed.

Lemma local_failures_send_nothing_witness :
  let upstream := always 100 (Responded 200 "" (Some quoteBody)) in
  let st := constructor 5000 in
  getQuote upstream noQuotient "A" "B" JNull ∅ st = (inl TypeError, st)
  /\ buildSwap upstream "A" "B" (JStr "1") (JStr "") ∅ st
     = (inl (Error "From address is required for swap building"), st).
Proof.
  intros upstream st.
  pose proof (local_failures_send_nothing upstream noQuotient (fun _ => inr 0)
                "A" "B" JNull (JStr "1") (JStr "0xF") (JStr "") "0xF" ∅ st TypeError
                eq_refl eq_refl eq_refl) as (H1 & _ & H3 & _).
  split; [exact H1 | exact H3].
Defined.

(** X11: the request of [buildSwap], for a sender address and an amount with
    a [toString]: [src], [dst], [amount], [from] and [slippage] (the
    option, or 1 when it is falsy) in this order, then [receiver] and
    [referrer] if they are truthy, and between them [allowPartialFill=true]
    whenever that option is truthy, whatever its value. *)
Theorem buildSwap_request_parameters
    upstream src dst amount text fromAddress options st :
  truthy fromAddress = true ->
  toString amount = inr text ->
  exists url,
    sent (buildSwap upstream src dst amount fromAddress options st).2
    = sent st ++ [(dispatchTime st, url)]
    /\ endpoint url = baseUrl +:+ "/swap"
    /\ searchParams url
       = [("src", src); ("dst", dst); ("amount", text);
          ("from", String_ fromAddress);
          ("slippage", String_ (or_else (opt options "slippage") (JNum 1)))]
         ++ (if truthy (opt options "receiver")
             then [("receiver", String_ (opt options "receiver"))] else [])
         ++ (if truthy (opt options "allowPartialFill")
             then [("allowPartialFill", "true")] else [])
         ++ (if truthy (opt options "referrer")
             then [("referrer", String_ (opt options "referrer"))] else []).
Proof.
  intros Hfrom Htext. unfold buildSwap, bind, lift. rewrite Hfrom, Htext.
  change (negb true) with false. cbv beta iota zeta.
  eexists. split; [|split].
  - rewrite rateLimitedRequest_spec.
    destruct (settled _) as [e|result]; [reflexivity|].
    destruct (prop result "dstAmount"); reflexivity.
  - rewrite !endpoint_appendIf. reflexivity.
  - rewrite !searchParams_appendIf_eq. simpl. rewrite <- !app_assoc. reflexivity.
Qed.

Lemma buildSwap_request_parameters_witness :
  let upstream := always 100 (Responded 200 "" (Some quoteBody)) in
  let st := constructor 5000 in
  let options : gmap string Value := {[ "allowPartialFill" := JStr "false" ]} in
  exists url,
    sent (buildSwap upstream "A" "B" (JStr "1000") (JStr "0xF") options st).2
    = sent st ++ [(dispatchTime st, url)]
    /\ endpoint url = baseUrl +:+ "/swap"
    /\ searchParams url
       = [("src", "A"); ("dst", "B"); ("amount", "1000"); ("from", "0xF");
          ("slippage", "1"); ("allowPartialFill", "true")].
Proof.
  intros upstream st options.
  exact (buildSwap_request_parameters upstream "A" "B" (JStr "1000") "1000"
           (JStr "0xF") options st eq_refl eq_refl).
Defined.

(** X12: when the upstream answers the swap request with a JSON object,
    [buildSwap] returns that object with one field added: [outputAmount],
    the object's [dstAmount] ([undefined] when there is none).  Every other
    field, the transaction [tx] among them, is returned as received. *)
Theorem buildSwap_returns_the_answer
    upstream src dst amount text fromAddress options st status errorText props :
  truthy fromAddress = true ->
  toString amount = inr text ->
  (forall url, outcome (upstream (length (sent st)) url)
               = Responded status errorText (Some (JObj props))) ->
  ok status = true ->
  exists swapData st',
    buildSwap upstream src dst amount fromAddress options st = (inr (JObj swapData), st')
    /\ swapData !! "outputAmount" = Some (default JUndefined (props !! "dstAmount"))
    /\ (forall name, name <> "outputAmount" -> swapData !! name = props !! name).
Proof.
  intros Hfrom Htext Hreply Hok. unfold buildSwap, bind, lift.
  rewrite Hfrom, Htext. change (negb true) with false. cbv beta iota zeta.
  rewrite rateLimitedRequest_spec, Hreply. unfold settled. rewrite Hok.
  unfold prop, spread. eexists _, _. split; [reflexivity|]. split.
  - apply lookup_insert_eq.
  - intros name Hname. apply lookup_insert_ne. congruence.
Qed.

Lemma buildSwap_returns_the_answer_witness :
  let body : gmap string Value :=
    {[ "dstAmount" := JStr "3868650000"; "tx" := JObj {[ "to" := JStr "0x1111" ]} ]} in
  let upstream := always 100 (Responded 200 "" (Some (JObj body))) in
  exists swapData st',
    buildSwap upstream "A" "B" (JStr "1") (JStr "0xF") ∅ (constructor 5000)
    = (inr (JObj swapData), st')
    /\ swapData !! "outputAmount" = Some (default JUndefined (body !! "dstAmount"))
    /\ (forall name, name <> "outputAmount" -> swapData !! name = body !! name).
Proof.
  intros body upstream.
  apply (buildSwap_returns_the_answer upstream "A" "B" (JStr "1") "1" (JStr "0xF") ∅
           (constructor 5000) 200 "" body); reflexivity.
Defined.

(** X13: [checkAllowance] sends [tokenAddress] and [walletAddress] to the
    allowance endpoint and [getSpender] sends a request without parameters;
    from a JSON object each returns one field, [allowance] or [address], as
    received, and [undefined] without any error when the field is missing. *)
Theorem allowance_and_spender
    upstream tokenAddress walletAddress st status errorText props :
  (forall url, outcome (upstream (length (sent st)) url)
               = Responded status errorText (Some (JObj props))) ->
  ok status = true ->
  (exists st',
     checkAllowance upstream tokenAddress walletAddress st
     = (inr (default JUndefined (props !! "allowance")), st')
     /\ sent st'
        = sent st ++ [(dispatchTime st,
                       MkUrl (baseUrl +:+ "/approve/allowance")
                             [("tokenAddress", tokenAddress);
                              ("walletAddress", walletAddress)])])
  /\ (exists st',
        getSpender upstream st = (inr (default JUndefined (props !! "address")), st')
        /\ sent st'
           = sent st ++ [(dispatchTime st, MkUrl (baseUrl +:+ "/approve/spender") [])]).
Proof.
  intros Hreply Hok. split.
  - unfold checkAllowance, bind, lift. cbv beta iota zeta.
    rewrite rateLimitedRequest_spec, Hreply. unfold settled. rewrite Hok.
    eexists. split; reflexivity.
  - unfold getSpender, bind, lift.
    rewrite rateLimitedRequest_spec, Hreply. unfold settled. rewrite Hok.
    eexists. split; reflexivity.
Qed.

Lemma allowance_and_spender_witness :
  let upstream := always 100 (Responded 200 "" (Some (JObj {[ "allowance" := JStr "0" ]}))) in
  exists st',
    checkAllowance upstream "0xT" "0xW" (constructor 5000) = (inr (JStr "0"), st')
    /\ sent st'
       = [(5000, MkUrl (baseUrl +:+ "/approve/allowance")
                       [("tokenAddress", "0xT"); ("walletAddress", "0xW")])].
Proof.
  intros upstream.
  exact (proj1 (allowance_and_spender upstream "0xT" "0xW" (constructor 5000) 200 ""
                  {[ "allowance" := JStr "0" ]} (fun _ => eq_refl) eq_refl)).
Defined.

(** ** The swap workflow *)

(** X14: the requests of [executeSwapWorkflow].  From the ETH address it
    asks for the quote and then for the swap.  From any other source it asks
    for the quote, then for the allowance, and then either for an approval
    transaction or for the swap, never for both; it may stop after any of
    these requests, and sends no other.  The request for an approval
    transaction carries the token address only: the approval asked for is
    always the unlimited one, whatever the amount of the swap. *)
Theorem workflow_requests upstream quotient BigInt wallet src dst amount options st :
  exists requests,
    sent (executeSwapWorkflow upstream quotient BigInt (Some wallet)
            src dst amount options st).2
    = sent st ++ requests
    /\ In (visited requests)
          (if String.eqb src ETH
           then [ []; [quoteEndpoint]; [quoteEndpoint; swapEndpoint] ]
           else [ []; [quoteEndpoint];
                  [quoteEndpoint; allowanceEndpoint];
                  [quoteEndpoint; allowanceEndpoint; transactionEndpoint];
                  [quoteEndpoint; allowanceEndpoint; swapEndpoint] ])
    /\ Forall (fun r => endpoint r.2 = transactionEndpoint ->
                        searchParams r.2 = [("tokenAddress", src)]) requests.
Proof.
  unfold executeSwapWorkflow, checkApproval, getQuote, buildSwap, checkAllowance,
    buildApproval, try_catch, bind, lift, ret, throw.
  cbv beta iota zeta.
  destruct (toString amount) as [e|text] eqn:Htext; cbv beta iota zeta.
  { exists []. rewrite app_nil_r. split; [reflexivity|].
    split; [destruct (String.eqb src ETH); left; reflexivity | constructor]. }
  repeat first
    [ rewrite rateLimitedRequest_spec
    | match goal with
      | |- context [match settled ?o with _ => _ end] => destruct (settled o)
      | |- context [match prop ?v ?n with _ => _ end] => destruct (prop v n)
      | |- context [match BigInt ?v with _ => _ end] => destruct (BigInt v)
      | |- context [match substring_0_42 ?v with _ => _ end] =>
          destruct (substring_0_42 v)
      | |- context [if ?a <? ?b then _ else _] => destruct (a <? b)
      | |- context [if negb (String.eqb src ETH) then _ else _] =>
          destruct (String.eqb src ETH)
      | |- context [if negb (negb (String.eqb wallet ?e)) then _ else _] =>
          destruct (String.eqb wallet e)
      end
    | progress cbn [negb truthy default_null fst snd]
    | progress cbv beta iota zeta ].
  all: eexists; split;
    [ unfold afterRequest; cbn [sent]; rewrite <- ?app_assoc; reflexivity |].
  all: try destruct (String.eqb src ETH).
  all: split;
    [ unfold visited; cbn [map app snd]; rewrite ?endpoint_appendIf;
      cbn [endpoint append URL In]; unfold quoteEndpoint, swapEndpoint,
        allowanceEndpoint, transactionEndpoint; tauto
    | repeat constructor; cbn [snd]; rewrite ?endpoint_appendIf;
      cbn [endpoint append URL searchParams app]; intros Hend;
      try reflexivity; try (exfalso; vm_compute in Hend; discriminate Hend) ].
Qed.

Lemma afterRequest_length upstream url st :
  length (sent (afterRequest upstream url st)) = S (length (sent st)).
Proof. rewrite afterRequest_sent, length_app. simpl. lia. Qed.

(** Runs the workflow along the answers given as hypotheses. *)
Ltac follow_workflow BigInt :=
  repeat first
    [ rewrite rateLimitedRequest_spec
    | rewrite !afterRequest_length
    | match goal with
      | H : (forall url : Url, _ = inr _)
        |- context [settled (outcome (?f ?n ?u))] => rewrite (H u)
      | H : BigInt ?v = _ |- context [BigInt ?v] => rewrite H
      | H : (?a <? ?b) = _ |- context [?a <? ?b] => rewrite H
      | H : ?m !! ?k = _ |- context [?m !! ?k] => rewrite H
      end
    | progress cbn [negb truthy default_null fst snd prop spread default
                    from_option substring_0_42]
    | progress cbv beta iota zeta ].

(** X15: the workflow stops at the approval.  For a source other than ETH,
    when quote, allowance and approval transaction are answered and the
    allowance is smaller than the amount, [executeSwapWorkflow] returns
    [approval_required] with the approval transaction as received and the
    quote; it has sent these three requests and has not asked for the
    swap. *)
Theorem workflow_asks_for_approval
    upstream quotient BigInt wallet src dst amount text options st
    quote allowance tx data allowed wanted :
  toString amount = inr text ->
  String.eqb src ETH = false ->
  (forall url, settled (outcome (upstream (length (sent st)) url)) = inr (JObj quote)) ->
  (forall url, settled (outcome (upstream (S (length (sent st))) url))
               = inr (JObj allowance)) ->
  (forall url, settled (outcome (upstream (S (S (length (sent st)))) url))
               = inr (JObj tx)) ->
  BigInt (default JUndefined (allowance !! "allowance")) = inr allowed ->
  BigInt amount = inr wanted ->
  allowed < wanted ->
  tx !! "data" = Some (JStr data) ->
  exists answer quoted st',
    executeSwapWorkflow upstream quotient BigInt (Some wallet) src dst amount options st
    = (inr (JObj answer), st')
    /\ answer !! "type" = Some (JStr "approval_required")
    /\ answer !! "approvalTransaction" = Some (JObj tx)
    /\ answer !! "quote" = Some (JObj quoted)
    /\ quoted !! "outputAmount" = Some (default JUndefined (quote !! "dstAmount"))
    /\ visited (drop (length (sent st)) (sent st'))
       = [quoteEndpoint; allowanceEndpoint; transactionEndpoint].
Proof.
  intros Htext Hsrc Hquote Hallowance Htx Hallowed Hwanted Hless Hdata.
  apply Z.ltb_lt in Hless.
  unfold executeSwapWorkflow, checkApproval, getQuote, buildSwap, checkAllowance,
    buildApproval, try_catch, bind, lift, ret, throw.
  rewrite Htext, Hsrc. follow_workflow BigInt.
  eexists _, _, _. split; [reflexivity|].
  split; [reflexivity|]. split; [reflexivity|]. split; [reflexivity|].
  split; [rewrite !lookup_insert_ne by discriminate; apply lookup_insert_eq|].
  unfold afterRequest; cbn [sent]. rewrite <- !app_assoc, drop_app_length.
  unfold visited; cbn [map app snd]. rewrite !endpoint_appendIf. reflexivity.
Qed.

Lemma workflow_asks_for_approval_witness :
  let upstream :=
    scripted [ JObj {[ "dstAmount" := JStr "3868650000" ]};
               JObj {[ "allowance" := JStr "0" ]};
               JObj {[ "to" := JStr "0xT"; "data" := JStr "0x095ea7b3" ]} ] in
  let BigInt := fun v => match v with JStr "0" => inr 0 | _ => inr 1000 end in
  exists answer quoted st',
    executeSwapWorkflow upstream noQuotient BigInt (Some "0xW")
      "0xT" "0xU" (JStr "1000") ∅ (constructor 5000)
    = (inr (JObj answer), st')
    /\ answer !! "type" = Some (JStr "approval_required")
    /\ answer !! "approvalTransaction"
       = Some (JObj {[ "to" := JStr "0xT"; "data" := JStr "0x095ea7b3" ]})
    /\ answer !! "quote" = Some (JObj quoted)
    /\ quoted !! "outputAmount"
       = Some (default JUndefined
                 (({[ "dstAmount" := JStr "3868650000" ]} : gmap string Value)
                  !! "dstAmount"))
    /\ visited (drop (length (sent (constructor 5000))) (sent st'))
       = [quoteEndpoint; allowanceEndpoint; transactionEndpoint].
Proof.
  intros upstream BigInt.
  apply (workflow_asks_for_approval upstream noQuotient BigInt "0xW" "0xT" "0xU"
           (JStr "1000") "1000" ∅ (constructor 5000)
           {[ "dstAmount" := JStr "3868650000" ]}
           {[ "allowance" := JStr "0" ]}
           {[ "to" := JStr "0xT"; "data" := JStr "0x095ea7b3" ]}
           "0x095ea7b3" 0 1000);
    try reflexivity; try (intros url; reflexivity).
Defined.

(** X16: the workflow builds the swap.  For a source other than ETH and a
    wallet address, when the allowance is not smaller than the amount
    (equal is enough) and quote, allowance and swap are answered, the swap
    with a transaction [tx], [executeSwapWorkflow] returns [swap_ready]
    with that transaction and the swap's [dstAmount] as expected output; it
    has sent these three requests and has asked for no approval. *)
Theorem workflow_builds_the_swap
    upstream quotient BigInt wallet src dst amount text options st
    quote allowance swap tx allowed wanted :
  toString amount = inr text ->
  String.eqb src ETH = false ->
  String.eqb wallet "" = false ->
  (forall url, settled (outcome (upstream (length (sent st)) url)) = inr (JObj quote)) ->
  (forall url, settled (outcome (upstream (S (length (sent st))) url))
               = inr (JObj allowance)) ->
  (forall url, settled (outcome (upstream (S (S (length (sent st)))) url))
               = inr (JObj swap)) ->
  BigInt (default JUndefined (allowance !! "allowance")) = inr allowed ->
  BigInt amount = inr wanted ->
  wanted <= allowed ->
  swap !! "tx" = Some (JObj tx) ->
  exists answer st',
    executeSwapWorkflow upstream quotient BigInt (Some wallet) src dst amount options st
    = (inr (JObj answer), st')
    /\ answer !! "type" = Some (JStr "swap_ready")
    /\ answer !! "transaction" = Some (JObj tx)
    /\ answer !! "expectedOutput" = Some (default JUndefined (swap !! "dstAmount"))
    /\ visited (drop (length (sent st)) (sent st'))
       = [quoteEndpoint; allowanceEndpoint; swapEndpoint].
Proof.
  intros Htext Hsrc Hwallet Hquote Hallowance Hswap Hallowed Hwanted Hle Htx.
  apply Z.ltb_ge in Hle.
  assert (Htx' : <[ "outputAmount" := default JUndefined (swap !! "dstAmount") ]> swap
                 !! "tx" = Some (JObj tx))
    by (rewrite lookup_insert_ne by discriminate; exact Htx).
  unfold executeSwapWorkflow, checkApproval, getQuote, buildSwap, checkAllowance,
    buildApproval, try_catch, bind, lift, ret, throw.
  rewrite Htext, Hsrc. cbn [truthy]. rewrite Hwallet. follow_workflow BigInt.
  rewrite lookup_insert_eq. cbn [default from_option].
  eexists _, _. split; [reflexivity|].
  split; [reflexivity|]. split; [reflexivity|]. split; [reflexivity|].
  unfold afterRequest; cbn [sent]. rewrite <- !app_assoc, drop_app_length.
  unfold visited; cbn [map app snd]. rewrite !endpoint_appendIf. reflexivity.
Qed.

Lemma workflow_builds_the_swap_witness :
  let upstream :=
    scripted [ JObj {[ "dstAmount" := JStr "3868650000" ]};
               JObj {[ "allowance" := JStr "1000" ]};
               JObj {[ "dstAmount" := JStr "3868640000";
                       "tx" := JObj {[ "to" := JStr "0x1111" ]} ]} ] in
  let BigInt := fun _ : Value => inr 1000 in
  exists answer st',
    executeSwapWorkflow upstream noQuotient BigInt (Some "0xW")
      "0xT" "0xU" (JStr "1000") ∅ (constructor 5000)
    = (inr (JObj answer), st')
    /\ answer !! "type" = Some (JStr "swap_ready")
    /\ answer !! "transaction" = Some (JObj {[ "to" := JStr "0x1111" ]})
    /\ answer !! "expectedOutput"
       = Some (default JUndefined
                 (({[ "dstAmount" := JStr "3868640000";
                      "tx" := JObj {[ "to" := JStr "0x1111" ]} ]}
                   : gmap string Value) !! "dstAmount"))
    /\ visited (drop (length (sent (constructor 5000))) (sent st'))
       = [quoteEndpoint; allowanceEndpoint; swapEndpoint].
Proof.
  intros upstream BigInt.
  apply (workflow_builds_the_swap upstream noQuotient BigInt "0xW" "0xT" "0xU"
           (JStr "1000") "1000" ∅ (constructor 5000)
           {[ "dstAmount" := JStr "3868650000" ]}
           {[ "allowance" := JStr "1000" ]}
           {[ "dstAmount" := JStr "3868640000";
              "tx" := JObj {[ "to" := JStr "0x1111" ]} ]}
           {[ "to" := JStr "0x1111" ]} 1000 1000);
    try reflexivity; try (intros url; reflexivity); try lia.
Defined.

(** ** The client of the test script *)

Section TestScript.

Variable upstream : nat -> Url -> Reply.

Lemma OneInchAPI_makeRequest_spec url st :
  OneInchAPI_makeRequest upstream url st
  = (settled (outcome (upstream (length (sent st)) url)), afterFetch upstream url st).
Proof.
  unfold OneInchAPI_makeRequest, try_catch, bind, fetch, settled, afterFetch, throw.
  destruct (outcome _) as [|status errorText json]; simpl; [reflexivity|].
  destruct (ok status); simpl; [|reflexivity].
  destruct json; reflexivity.
Qed.

Lemma OneInchAPI_tryPaths_all_fail paths :
  (forall n url, exists e, settled (outcome (upstream n url)) = inl e) ->
  forall st, exists st' requests,
    OneInchAPI_tryPaths upstream paths st
    = (inl (Error "All protocol endpoints failed"), st')
    /\ sent st' = sent st ++ requests
    /\ map snd requests = paths
    /\ lastRequest st' = lastRequest st
    /\ caches st' = caches st.
Proof.
  intros Hdown. induction paths as [|path rest IH]; intros st.
  - exists st, []. simpl. rewrite app_nil_r. repeat split.
  - simpl. unfold try_catch. rewrite OneInchAPI_makeRequest_spec.
    destruct (Hdown (length (sent st)) path) as [e ->].
    destruct (IH (afterFetch upstream path st))
      as (st' & requests & Hrun & Hsent & Hurls & Hlast & Hcaches).
    exists st', ((clock st, path) :: requests).
    split; [exact Hrun|]. simpl in *.
    rewrite Hsent, <- app_assoc, Hurls. repeat split; assumption.
Qed.

(** The first path that answers ends the loop. *)
Lemma OneInchAPI_tryPaths_first path rest st result :
  settled (outcome (upstream (length (sent st)) path)) = inr result ->
  OneInchAPI_tryPaths upstream (path :: rest) st
  = (inr result, afterFetch upstream path st).
Proof.
  intros Hreply. simpl. unfold try_catch.
  rewrite OneInchAPI_makeRequest_spec, Hreply. reflexivity.
Qed.

End TestScript.

(** X17: when every request fails, [OneInchAPI.getSupportedProtocols] of the
    test script throws [All protocol endpoints failed] after one request to
    each of its three paths, in order; it returns no substitute list and
    touches neither the caches nor [lastRequest]. *)
Theorem OneInchAPI_protocols_all_fail upstream st :
  (forall n url, exists e, settled (outcome (upstream n url)) = inl e) ->
  exists st' requests,
    OneInchAPI_getSupportedProtocols upstream st
    = (inl (Error "All protocol endpoints failed"), st')
    /\ sent st' = sent st ++ requests
    /\ map snd requests
       = [ URL (baseUrl +:+ "/protocols");
           URL (baseUrl +:+ "/liquidity-sources");
           URL "https://api.1inch.dev/swap/v5.0/1/protocols" ]
    /\ lastRequest st' = lastRequest st
    /\ caches st' = caches st.
Proof.
  intros Hdown.
  exact (OneInchAPI_tryPaths_all_fail upstream possiblePaths Hdown st).
Qed.

Lemma OneInchAPI_protocols_all_fail_witness :
  exists st' requests,
    OneInchAPI_getSupportedProtocols (always 100 (Responded 404 "Not Found" None))
      (constructor 5000)
    = (inl (Error "All protocol endpoints failed"), st')
    /\ sent st' = sent (constructor 5000) ++ requests
    /\ map snd requests
       = [ URL (baseUrl +:+ "/protocols");
           URL (baseUrl +:+ "/liquidity-sources");
           URL "https://api.1inch.dev/swap/v5.0/1/protocols" ]
    /\ lastRequest st' = lastRequest (constructor 5000)
    /\ caches st' = caches (constructor 5000).
Proof.
  apply (OneInchAPI_protocols_all_fail (always 100 (Responded 404 "Not Found" None))).
  intros n url. eexists. reflexivity.
Defined.

(** X18: the client of the test script is not paced.  Two of its requests
    made one after the other leave at the time of the call and when the
    first reply is there, however close that is; [lastRequest] and the
    caches stay as they were. *)
Theorem OneInchAPI_requests_are_not_paced upstream url1 url2 st :
  let st2 := (OneInchAPI_makeRequest upstream url2
                (OneInchAPI_makeRequest upstream url1 st).2).2 in
  sent st2
  = sent st ++ [ (clock st, url1);
                 (clock st + latency (upstream (length (sent st)) url1), url2) ]
  /\ lastRequest st2 = lastRequest st
  /\ caches st2 = caches st.
Proof.
  rewrite !OneInchAPI_makeRequest_spec. simpl.
  rewrite <- app_assoc. repeat split.
Qed.

(** X19: the two copies of the client ask for the same thing.  For an
    amount with a [toString] and without the options only the trading
    application knows ([protocols], [fee]; [receiver], [allowPartialFill],
    [referrer]), [getQuote] and [buildSwap] of [OneInchTradingApp] send the
    same URL as those of the test script's [OneInchAPI]; only the time of
    dispatch differs. *)
Theorem client_copies_send_the_same_request
    upstream quotient src dst amount text from options st :
  toString amount = inr text ->
  String.eqb from "" = false ->
  truthy (opt options "protocols") = false ->
  truthy (opt options "fee") = false ->
  truthy (opt options "receiver") = false ->
  truthy (opt options "allowPartialFill") = false ->
  truthy (opt options "referrer") = false ->
  (exists url,
     sent (getQuote upstream quotient src dst amount options st).2
     = sent st ++ [(dispatchTime st, url)]
     /\ sent (OneInchAPI_getQuote upstream src dst amount options st).2
        = sent st ++ [(clock st, url)])
  /\ (exists url,
        sent (buildSwap upstream src dst amount (JStr from) options st).2
        = sent st ++ [(dispatchTime st, url)]
        /\ sent (OneInchAPI_buildSwap upstream src dst amount from options st).2
           = sent st ++ [(clock st, url)]).
Proof.
  intros Htext Hfrom Hprotocols Hfee Hreceiver Hpartial Hreferrer.
  assert (Hstring : String_ amount = text)
    by (unfold toString in Htext; destruct amount; try discriminate;
        injection Htext as <-; reflexivity).
  subst text. split.
  - unfold getQuote, OneInchAPI_getQuote, bind, lift. rewrite Htext.
    cbv beta iota zeta. rewrite rateLimitedRequest_spec, OneInchAPI_makeRequest_spec.
    unfold appendIf. rewrite Hprotocols, Hfee.
    eexists. split.
    + destruct (settled _) as [e|result]; [reflexivity|].
      destruct (prop result "dstAmount"); reflexivity.
    + reflexivity.
  - unfold buildSwap, OneInchAPI_buildSwap, bind, lift. cbn [truthy].
    rewrite Hfrom, Htext. cbn [negb]. cbv beta iota zeta.
    rewrite rateLimitedRequest_spec, OneInchAPI_makeRequest_spec.
    unfold appendIf. rewrite Hreceiver, Hpartial, Hreferrer.
    eexists. split.
    + destruct (settled _) as [e|result]; [reflexivity|].
      destruct (prop result "dstAmount"); reflexivity.
    + reflexivity.
Qed.

Lemma client_copies_send_the_same_request_witness :
  let upstream := always 100 (Responded 200 "" (Some quoteBody)) in
  let st := MkState 5400 [] 5000 JNull 0 JNull 0 in
  let options : gmap string Value := {[ "slippage" := JNum 2 ]} in
  exists url,
    sent (getQuote upstream noQuotient "A" "B" (JBig 1000) options st).2
    = sent st ++ [(dispatchTime st, url)]
    /\ sent (OneInchAPI_getQuote upstream "A" "B" (JBig 1000) options st).2
       = sent st ++ [(clock st, url)].
Proof.
  intros upstream st options.
  exact (proj1 (client_copies_send_the_same_request upstream noQuotient "A" "B"
                  (JBig 1000) "1000" "0xF" options st
                  eq_refl eq_refl eq_refl eq_refl eq_refl eq_refl eq_refl)).
Defined.

(** ** More on the proxy *)

(** X20: whatever the upstream does, each of the five proxying routes
    answers with status 200 and the JSON body the upstream sent, or with
    status 500 and a body made of the route's own error label and a text;
    no other status ever reaches the caller.  Every answer carries the CORS
    headers. *)
Theorem proxy_answers_200_or_500 runtime_message route query upstream :
  let answer := (Proxy.handle runtime_message route query upstream).2 in
  Proxy.answer_headers answer = Proxy.cors
  /\ ((Proxy.answer_status answer = 200
       /\ Proxy.relay upstream = inr (Proxy.answer_body answer))
      \/ (Proxy.answer_status answer = 500
          /\ exists details,
               Proxy.answer_body answer
               = JObj {[ "error" := JStr (Proxy.label route);
                         "details" := JStr details ]})).
Proof.
  destruct route; simpl;
    unfold Proxy.api_tokens, Proxy.api_quote, Proxy.api_swap,
      Proxy.api_approve_allowance, Proxy.api_approve_transaction; simpl;
    destruct (Proxy.relay upstream) as [e|data]; simpl;
    try (destruct (prop data _) as [e|found]; simpl);
    try (destruct (Object_keys found) as [e|[]]; simpl);
    (split; [reflexivity|]);
    try (left; split; reflexivity);
    right; (split; [reflexivity|]); eexists; reflexivity.
Qed.

(** X21: on every route, an upstream answer with a status outside 200..299
    is answered with status 500, the route's error label and the details
    [HTTP <status>: <text>]: the upstream's status survives in that text
    only. *)
Theorem proxy_hides_the_upstream_status
    runtime_message route query status errorText json :
  ok status = false ->
  (Proxy.handle runtime_message route query (Responded status errorText json)).2
  = Proxy.MkAnswer 500
      (JObj {[ "error" := JStr (Proxy.label route);
               "details" := JStr (http_message status errorText) ]})
      Proxy.cors.
Proof.
  intros Hbad.
  destruct route; simpl;
    unfold Proxy.api_tokens, Proxy.api_quote, Proxy.api_swap,
      Proxy.api_approve_allowance, Proxy.api_approve_transaction, Proxy.relay;
    simpl; rewrite Hbad; reflexivity.
Qed.

Lemma proxy_hides_the_upstream_status_witness :
  (Proxy.handle noMessage Proxy.Swap [] (Responded 429 "Too Many Requests" None)).2
  = Proxy.MkAnswer 500
      (JObj {[ "error" := JStr "Failed to build swap";
               "details" := JStr "HTTP 429: Too Many Requests" ]})
      Proxy.cors.
Proof.
  exact (proxy_hides_the_upstream_status noMessage Proxy.Swap [] 429
           "Too Many Requests" None eq_refl).
Defined.

(** X22: a successful upstream answer can still be answered with 500.  The
    routes for tokens, quotes and allowances read a field of the body for
    their log line before they answer: the JSON body [null] makes them
    answer 500 with the runtime's [TypeError] text, and so does, for tokens,
    an object without [tokens].  The routes for swaps and approval
    transactions read nothing and relay [null] with status 200. *)
Theorem proxy_log_line_can_fail runtime_message query status errorText props :
  ok status = true ->
  props !! "tokens" = None ->
  let failed route :=
    Proxy.MkAnswer 500
      (JObj {[ "error" := JStr (Proxy.label route);
               "details" := JStr (runtime_message TypeError) ]})
      Proxy.cors in
  let null := Responded status errorText (Some JNull) in
  (Proxy.handle runtime_message Proxy.Tokens query null).2 = failed Proxy.Tokens
  /\ (Proxy.handle runtime_message Proxy.Quote query null).2 = failed Proxy.Quote
  /\ (Proxy.handle runtime_message Proxy.Allowance query null).2
     = failed Proxy.Allowance
  /\ (Proxy.handle runtime_message Proxy.Tokens query
        (Responded status errorText (Some (JObj props)))).2 = failed Proxy.Tokens
  /\ (Proxy.handle runtime_message Proxy.Swap query null).2
     = Proxy.MkAnswer 200 JNull Proxy.cors
  /\ (Proxy.handle runtime_message Proxy.Transaction query null).2
     = Proxy.MkAnswer 200 JNull Proxy.cors.
Proof.
  intros Hok Hnone failed null. subst failed null.
  unfold Proxy.handle, Proxy.api_tokens, Proxy.api_quote, Proxy.api_swap,
    Proxy.api_approve_allowance, Proxy.api_approve_transaction, Proxy.relay.
  cbn [snd]. rewrite Hok. cbn [negb]. unfold prop at 4. rewrite Hnone.
  repeat split.
Qed.

Lemma proxy_log_line_can_fail_witness :
  (Proxy.handle noMessage Proxy.Quote [] (Responded 200 "null" (Some JNull))).2
  = Proxy.MkAnswer 500
      (JObj {[ "error" := JStr "Failed to get quote"; "details" := JStr "" ]})
      Proxy.cors.
Proof.
  exact (proj1 (proj2 (proxy_log_line_can_fail noMessage [] 200 "null" ∅
                         eq_refl eq_refl))).
Defined.

(** ** The swap component's client behind the proxy *)

Lemma pretty_N_go_length x : forall s,
  (String.length s <= String.length (pretty_N_go x s))%nat.
Proof.
  induction (N.lt_wf_0 x) as [x _ IH]; intros s.
  destruct (decide (x = 0)%N) as [->|Hpos].
  - rewrite pretty_N_go_0. lia.
  - rewrite pretty_N_go_step by lia.
    etransitivity; [|apply IH, N.div_lt; lia]. simpl. lia.
Qed.

Lemma pretty_Z_not_empty (n : Z) : String.eqb (pretty n) "" = false.
Proof.
  apply String.eqb_neq. unfold pretty, pretty_Z.
  destruct n as [|p|p]; [discriminate| |discriminate].
  unfold pretty, pretty_positive, pretty, pretty_N.
  destruct (decide (N.pos p = 0)%N); [discriminate|].
  rewrite pretty_N_go_step by lia. intros Hempty.
  pose proof (pretty_N_go_length (N.pos p `div` 10)
                (String (pretty_N_char (N.pos p `mod` 10)) "")) as Hlen.
  rewrite Hempty in Hlen. simpl in Hlen. lia.
Qed.

Lemma forward_cons_text name value query url :
  Proxy.forward ((name, JStr value) :: query) url
  = Proxy.forward query
      (MkUrl (endpoint url) (searchParams url ++ kept name value)).
Proof.
  unfold Proxy.forward, kept, appendIf, append; simpl.
  destruct (String.eqb value ""); simpl; [|reflexivity].
  rewrite app_nil_r. destruct url; reflexivity.
Qed.

(** X23: what reaches the upstream when the swap component asks the proxy
    for a quote or a swap: each of the fields [src], [dst], [amount] (and
    [from]) that is not empty, as typed, and the slippage as a decimal
    number, 0 included.  An empty field is dropped on the way without any
    error. *)
Theorem component_request_through_proxy
    runtime_message upstream src dst amount from slippage :
  (Component.getQuote runtime_message upstream src dst amount slippage).1
  = MkUrl (Proxy.BASE_URL +:+ "/quote")
          (kept "src" src ++ kept "dst" dst ++ kept "amount" amount
           ++ [("slippage", pretty slippage)])
  /\ (Component.buildSwap runtime_message upstream src dst amount from slippage).1
     = MkUrl (Proxy.BASE_URL +:+ "/swap")
             (kept "src" src ++ kept "dst" dst ++ kept "amount" amount
              ++ kept "from" from ++ [("slippage", pretty slippage)]).
Proof.
  assert (Hslippage : kept "slippage" (pretty slippage)
                      = [("slippage", pretty slippage)])
    by (unfold kept; rewrite pretty_Z_not_empty; reflexivity).
  split.
  - unfold Component.getQuote, Proxy.api_quote, Component.req_query,
      Component.quoteUrl. cbn [fst snd map searchParams append URL app String_].
    rewrite !forward_cons_text.
    cbn [Proxy.forward foldl endpoint searchParams URL app].
    rewrite Hslippage, <- !app_assoc. reflexivity.
  - unfold Component.buildSwap, Proxy.api_swap, Component.req_query,
      Component.swapUrl. cbn [fst snd map searchParams append URL app String_].
    rewrite !forward_cons_text.
    cbn [Proxy.forward foldl endpoint searchParams URL app].
    rewrite Hslippage, <- !app_assoc. reflexivity.
Qed.

(** X24: what the swap component learns of a failure behind the proxy.
    Whenever the proxy's exchange with the upstream fails (no reply, any
    status outside 200..299, a body that is not JSON), [getQuote] throws
    [Failed to get quote: 500] and [buildSwap] throws
    [Failed to build swap: 500]: neither the upstream's status nor its
    text reaches the component. *)
Theorem component_sees_status_500_only
    runtime_message upstream src dst amount from slippage e :
  Proxy.relay upstream = inl e ->
  (Component.getQuote runtime_message upstream src dst amount slippage).2
  = inl (Error "Failed to get quote: 500")
  /\ (Component.buildSwap runtime_message upstream src dst amount from slippage).2
     = inl (Error "Failed to build swap: 500").
Proof.
  intros Hrelay.
  unfold Component.getQuote, Component.buildSwap, Proxy.api_quote, Proxy.api_swap.
  cbn [snd]. rewrite Hrelay. split; reflexivity.
Qed.

Lemma component_sees_status_500_only_witness :
  (Component.getQuote noMessage (Responded 429 "Too Many Requests" None)
     "A" "B" "1000" 1).2
  = inl (Error "Failed to get quote: 500").
Proof.
  exact (proj1 (component_sees_status_500_only noMessage
                  (Responded 429 "Too Many Requests" None) "A" "B" "1000" "0xF" 1
                  (Error "HTTP 429: Too Many Requests") eq_refl)).
Defined.

(** X25: when the upstream answers with a status in 200..299 and a JSON
    object, the swap component gets that object from [getQuote] and from
    [buildSwap], unchanged, behind the proxy. *)
Theorem component_gets_the_upstream_answer
    runtime_message src dst amount from slippage status errorText props :
  ok status = true ->
  let upstream := Responded status errorText (Some (JObj props)) in
  (Component.getQuote runtime_message upstream src dst amount slippage).2
  = inr (JObj props)
  /\ (Component.buildSwap runtime_message upstream src dst amount from slippage).2
     = inr (JObj props).
Proof.
  intros Hok upstream. subst upstream.
  unfold Component.getQuote, Component.buildSwap, Proxy.api_quote, Proxy.api_swap,
    Proxy.relay.
  cbn [snd]. rewrite Hok. split; reflexivity.
Qed.

Lemma component_gets_the_upstream_answer_witness :
  (Component.getQuote noMessage (Responded 200 "" (Some quoteBody)) "A" "B" "1000" 1).2
  = inr quoteBody.
Proof.
  exact (proj1 (component_gets_the_upstream_answer noMessage "A" "B" "1000" "0xF" 1
                  200 "" {[ "dstAmount" := JStr "3868650000" ]} eq_refl)).
Defined.

(** ** The two shapes of a protocol list *)

Lemma tryEndpoints_first upstream now url rest st result :
  settled (outcome (upstream (length (sent st)) url)) = inr result ->
  (exists props, result = JObj props) \/ (exists items, result = JArr items) ->
  exists protocols,
    prop result "protocols" = inr protocols
    /\ tryEndpoints upstream now (url :: rest) st
       = (inr (or_else protocols result),
          (set_protocolsCache (or_else protocols result) now
             (afterRequest upstream url st)).2).
Proof.
  intros Hreply Hshape. simpl tryEndpoints. unfold try_catch, tryEndpoint, bind, lift.
  rewrite rateLimitedRequest_spec, Hreply.
  destruct Hshape as [[props ->]|[items ->]].
  - exists (default JUndefined (props !! "protocols")). split; [reflexivity|].
    cbn [prop]. unfold or_else.
    destruct (truthy (default JUndefined (props !! "protocols"))) eqn:Htruthy.
    + destruct (default JUndefined (props !! "protocols")); try discriminate;
        reflexivity.
    + reflexivity.
  - exists JUndefined. split; reflexivity.
Qed.

(** X26: [getSupportedProtocols] takes the list in either shape.  When the
    first endpoint answers with a JSON array, that array is the list; when
    it answers with an object whose [protocols] is truthy, that field is the
    list; an object without a truthy [protocols] is taken as the list
    itself.  In each case the list is cached and no other endpoint is
    asked. *)
Theorem protocols_answer_shapes upstream st body :
  isFresh (protocolsCache st) (protocolsCacheTime st) st = false ->
  settled (outcome (upstream (length (sent st)) (URL (protocolsUrl +:+ "/protocols"))))
  = inr body ->
  (exists items, body = JArr items) \/ (exists props, body = JObj props) ->
  exists list st',
    getSupportedProtocols upstream st = (inr list, st')
    /\ protocolsCache st' = list
    /\ sent st' = sent st ++ [(dispatchTime st, URL (protocolsUrl +:+ "/protocols"))]
    /\ (forall items, body = JArr items -> list = body)
    /\ (forall props, body = JObj props ->
        list = or_else (default JUndefined (props !! "protocols")) body).
Proof.
  intros Hfresh Hreply Hshape.
  rewrite (getSupportedProtocols_miss _ _ Hfresh). unfold endpoints.
  set (first := URL (protocolsUrl +:+ "/protocols")) in *.
  set (rest := [URL "https://api.1inch.dev/swap/v4.0/1/protocols";
                URL "https://api.1inch.dev/swap/v3.0/1/protocols"]).
  destruct (tryEndpoints_first upstream (clock st) first rest st body Hreply)
    as (protocols & Hprop & ->); [tauto|].
  eexists _, _. split; [reflexivity|]. split; [reflexivity|].
  split; [reflexivity|]. split.
  - intros items ->. injection Hprop as <-. reflexivity.
  - intros props ->. injection Hprop as <-. reflexivity.
Qed.

Lemma protocols_answer_shapes_witness :
  let body := JObj {[ "protocols" := JArr [JStr "CURVE"] ]} in
  let upstream := always 100 (Responded 200 "" (Some body)) in
  exists list st',
    getSupportedProtocols upstream (constructor 5000) = (inr list, st')
    /\ protocolsCache st' = list
    /\ sent st'
       = sent (constructor 5000)
         ++ [(dispatchTime (constructor 5000), URL (protocolsUrl +:+ "/protocols"))]
    /\ (forall items, body = JArr items -> list = body)
    /\ (forall props, body = JObj props ->
        list = or_else (default JUndefined (props !! "protocols")) body).
Proof.
  intros body upstream.
  apply (protocols_answer_shapes upstream (constructor 5000) body).
  - reflexivity.
  - reflexivity.
  - right. eexists. reflexivity.
Defined.
